(** * Superhero-Hub: the hero cache of the backend and its three query routes

    A shallow embedding of the backend server (the Express application whose
    routes are [/api/heroes], [/api/superhero] and [/api/superhero/:id]) and
    the properties of its aggregation cache.

    The server keeps one module-level array, [cachedHeroes].  Route handlers
    are asynchronous functions that read and push to that array and call the
    upstream service through [axios.get].  They are embedded in a small monad
    [Async] that threads the process state and carries JavaScript exceptions;
    the state survives a [throw], as it does in JavaScript. *)

From Stdlib Require Import List String Ascii Bool Arith ZArith Lia.
From Stdlib Require Import Permutation Sorted.
Import ListNotations.
Local Open Scope string_scope.
Local Open Scope list_scope.

(* ===================================================================== *)
(** ** JavaScript values read by the server *)
(* ===================================================================== *)

(** A hero's [id] as it comes out of the upstream JSON: a string or a
    number.  On these [===] is structural equality, and a string is never
    [===] to a number. *)
Inductive JsId : Type :=
| IdStr (s : string)
| IdNum (n : Z).

Definition strict_eq (a b : JsId) : bool :=
  match a, b with
  | IdStr s, IdStr t => String.eqb s t
  | IdNum n, IdNum m => Z.eqb n m
  | _, _ => false
  end.

(** Strings are sequences of 8-bit characters; [toLowerCase] maps the
    letters [A]..[Z] to [a]..[z] and leaves every other character alone. *)
Definition lower_ascii (c : ascii) : ascii :=
  let n := nat_of_ascii c in
  if (65 <=? n)%nat && (n <=? 90)%nat then ascii_of_nat (n + 32) else c.

Fixpoint toLowerCase (s : string) : string :=
  match s with
  | EmptyString => EmptyString
  | String c s' => String (lower_ascii c) (toLowerCase s')
  end.

(** [s.includes(sub)]: [sub] occurs in [s] at some position. *)
Fixpoint includes (s sub : string) : bool :=
  String.prefix sub s ||
  match s with
  | EmptyString => false
  | String _ s' => includes s' sub
  end.

(** ['...'.split('')]: the one-character strings of a string, in order. *)
Fixpoint split_chars (s : string) : list string :=
  match s with
  | EmptyString => []
  | String c s' => String c EmptyString :: split_chars s'
  end.

(** JavaScript truthiness of a value that is [undefined] or a string:
    [undefined] and the empty string are falsy. *)
Definition truthy (v : option string) : bool :=
  match v with
  | None => false
  | Some EmptyString => false
  | Some (String _ _) => true
  end.

(** A value interpolated in a template literal. *)
Definition interpolate (v : option string) : string :=
  match v with
  | None => "undefined"
  | Some s => s
  end.

(* ===================================================================== *)
(** ** Data model *)
(* ===================================================================== *)

Module Hero.

Record Biography : Type := {
  alignment : option string;   (* may be absent *)
  publisher : option string
}.

Record t : Type := {
  id : JsId;
  name : string;
  biography : Biography;
  image_url : option string
}.

End Hero.

(** The body of an upstream reply, [response.data]: the fields the server
    reads ([response], [results]) and, for a lookup by id, the record. *)
Record ResponseData : Type := {
  response : option string;
  results : option (list Hero.t);
  record : option Hero.t
}.

(** What [await axios.get(url)] does: it rejects (transport failure or a
    status outside 2xx) or resolves to a reply whose [data] may be [null]. *)
Inductive AxiosResult : Type :=
| Rejected (message : string)
| Resolved (data : option ResponseData).

(** The process environment: the API key from [.env], and the upstream
    service, whose answer to a URL may change from one call to the next (the
    first argument counts the calls made before). *)
Record Env : Type := {
  SUPERHERO_API_KEY : option string;
  upstream : nat -> string -> AxiosResult
}.

(** The state of the process: the cache, and the URLs requested from
    upstream so far, oldest first. *)
Record World : Type := {
  cachedHeroes : list Hero.t;
  requests : list string
}.

Definition initial : World := {| cachedHeroes := []; requests := [] |}.

(** What a handler sends: [res.status(n).json(body)]. *)
Inductive Json : Type :=
| JHeroes (heroes : list Hero.t)
| JMessage (message : string)
| JData (data : ResponseData).

Record HttpResponse : Type := {
  status : nat;
  body : Json
}.

Definition json (code : nat) (b : Json) : HttpResponse :=
  {| status := code; body := b |}.

(* ===================================================================== *)
(** ** The monad of asynchronous functions *)
(* ===================================================================== *)

Inductive Completion (A : Type) : Type :=
| Return (a : A)
| Throw (error : string).
Arguments Return {A} a.
Arguments Throw {A} error.

Definition Async (A : Type) : Type := World -> Completion A * World.

Definition ret {A} (a : A) : Async A := fun w => (Return a, w).

Definition throw {A} (error : string) : Async A := fun w => (Throw error, w).

Definition bind {A B} (m : Async A) (k : A -> Async B) : Async B :=
  fun w =>
    match m w with
    | (Return a, w') => k a w'
    | (Throw e, w') => (Throw e, w')
    end.

Definition try_catch {A} (m : Async A) (handler : string -> Async A) : Async A :=
  fun w =>
    match m w with
    | (Return a, w') => (Return a, w')
    | (Throw e, w') => handler e w'
    end.

Declare Scope async_scope.
Delimit Scope async_scope with async.
Notation "x <- m ;; k" := (bind m (fun x => k))
  (at level 61, m at next level, right associativity) : async_scope.
Notation "m ;; k" := (bind m (fun _ => k))
  (at level 61, right associativity) : async_scope.
Local Open Scope async_scope.

Definition read_cachedHeroes : Async (list Hero.t) :=
  fun w => (Return (cachedHeroes w), w).

Definition write_cachedHeroes (heroes : list Hero.t) : Async unit :=
  fun w => (Return tt, {| cachedHeroes := heroes; requests := requests w |}).

(** [for (const x of xs) { await body(x); }] *)
Fixpoint for_of {A} (xs : list A) (body : A -> Async unit) : Async unit :=
  match xs with
  | [] => ret tt
  | x :: xs' => body x ;; for_of xs' body
  end.

(* ===================================================================== *)
(** ** The server *)
(* ===================================================================== *)

Section Server.

Variable env : Env.

(** [axios.get(url)]: the request is recorded, and upstream answers.
    What the server writes to the console is not part of the model. *)
Definition axios_get (url : string) : Async (option ResponseData) :=
  fun w =>
    let w' := {| cachedHeroes := cachedHeroes w;
                 requests := requests w ++ [url] |} in
    match upstream env (List.length (requests w)) url with
    | Rejected message => (Throw message, w')
    | Resolved data => (Return data, w')
    end.

(** The body of the [forEach] in [fetchHeroesByLetter]: push the hero
    unless some cached hero has the same id. *)
Definition push_unique (cached : list Hero.t) (hero : Hero.t) : list Hero.t :=
  if negb (existsb (fun cachedHero =>
                      strict_eq (Hero.id cachedHero) (Hero.id hero)) cached)
  then cached ++ [hero]
  else cached.

Definition forEach_push_unique (heroes : list Hero.t) : Async unit :=
  cached <- read_cachedHeroes ;;
  write_cachedHeroes (fold_left push_unique heroes cached).

Definition allHeroesUrl (letter : string) : string :=
  ("https://superheroapi.com/api/" ++ interpolate (SUPERHERO_API_KEY env)
     ++ "/search/" ++ letter)%string.

Definition fetchHeroesByLetter (letter : string) : Async unit :=
  try_catch
    (data <- axios_get (allHeroesUrl letter) ;;
     match data with
     | None => throw "TypeError: Cannot read properties of null"
     | Some d =>
         match results d with
         | Some (hero :: heroes) => forEach_push_unique (hero :: heroes)
         | Some [] => ret tt
         | None => ret tt
         end
     end)
    (fun error => ret tt).

Definition lettersToFetch : list string :=
  split_chars "abcdefghijklmnopqrstuvwxyz".

Definition initializeHeroCache : Async unit :=
  for_of lettersToFetch fetchHeroesByLetter.

(** [app.get('/api/heroes', ...)].  The conditional on [alignment] and the
    [&&] on [hero.biography.alignment] test a value for truthiness before
    [toLowerCase] is called on it: they are matches on a string that is
    present and not empty. *)
Definition get_api_heroes (alignment : option string) : Async HttpResponse :=
  try_catch
    (cached <- read_cachedHeroes ;;
     (if (List.length cached =? 0)%nat then initializeHeroCache else ret tt) ;;
     cached <- read_cachedHeroes ;;
     let filteredHeroes :=
       match alignment with
       | Some (String _ _ as alignment) =>
           filter (fun hero =>
                     match Hero.alignment (Hero.biography hero) with
                     | Some (String _ _ as heroAlignment) =>
                         String.eqb (toLowerCase heroAlignment)
                                    (toLowerCase alignment)
                     | _ => false
                     end)
                  cached
       | _ => cached
       end in
     ret (json 200 (JHeroes filteredHeroes)))
    (fun error => ret (json 500 (JMessage "Error fetching heroes."))).

(** [app.get('/api/superhero', ...)].  [heroName] is [undefined] or a
    string; past the guard it is converted to a string where it is used, as
    the argument of [includes] and in the template literal. *)
Definition get_api_superhero (name : option string) : Async HttpResponse :=
  let heroName := option_map toLowerCase name in
  if negb (truthy heroName)
  then ret (json 400 (JMessage "Please provide a superhero name."))
  else
    try_catch
      (cached <- read_cachedHeroes ;;
       let matchingHeroes :=
         filter (fun hero =>
                   includes (toLowerCase (Hero.name hero)) (interpolate heroName))
                cached in
       if (0 <? List.length matchingHeroes)%nat
       then ret (json 200 (JHeroes matchingHeroes))
       else ret (json 404 (JMessage ("No superhero found with name: "
                                       ++ interpolate heroName)%string)))
      (fun error => ret (json 500 (JMessage "Error fetching superhero data."))).

Definition heroUrl (apiKey heroId : string) : string :=
  ("https://superheroapi.com/api/" ++ apiKey ++ "/" ++ heroId)%string.

(** [app.get('/api/superhero/:id', ...)] *)
Definition get_api_superhero_id (heroId : string) : Async HttpResponse :=
  try_catch
    (let apiKey := SUPERHERO_API_KEY env in
     if negb (truthy apiKey)
     then ret (json 500 (JMessage "API key is missing"))
     else
       data <- axios_get (heroUrl (interpolate apiKey) heroId) ;;
       match data with
       | Some d =>
           match response d with
           | Some r =>
               if String.eqb r "success"
               then ret (json 200 (JData d))
               else ret (json 404 (JMessage ("No superhero found with ID: " ++ heroId)%string))
           | None => ret (json 404 (JMessage ("No superhero found with ID: " ++ heroId)%string))
           end
       | None => ret (json 404 (JMessage ("No superhero found with ID: " ++ heroId)%string))
       end)
    (fun error => ret (json 500 (JMessage "Error fetching superhero data."))).

(** The three routes, as the requests a client can send. *)
Inductive Request : Type :=
| ListHeroes (alignment : option string)
| SearchByName (name : option string)
| GetById (heroId : string).

Definition handle (req : Request) : Async HttpResponse :=
  match req with
  | ListHeroes alignment => get_api_heroes alignment
  | SearchByName name => get_api_superhero name
  | GetById heroId => get_api_superhero_id heroId
  end.

(** Requests served one after the other, each handler running to its end
    before the next request arrives; the state after the last one. *)
Definition serve (reqs : list Request) (w : World) : World :=
  fold_left (fun w req => snd (handle req w)) reqs w.

End Server.

(* ===================================================================== *)
(** ** Vocabulary of the specification *)
(* ===================================================================== *)

(** The records a reply to a letter search yields for the merge: those of
    [data.results], and none when the call is rejected or the reply carries
    no [results]. *)
Definition yielded (reply : AxiosResult) : list Hero.t :=
  match reply with
  | Resolved (Some d) =>
      match results d with
      | Some heroes => heroes
      | None => []
      end
  | Resolved None => []
  | Rejected _ => []
  end.

(** A letter-fetch fails when [axios.get] rejects. *)
Definition fetch_fails (reply : AxiosResult) : Prop :=
  exists message, reply = Rejected message.

(** The records upstream yields, in order, to letter searches issued for
    [letters] one after the other, the first of them being call number
    [clock]. *)
Fixpoint fetched (env : Env) (clock : nat) (letters : list string) : list Hero.t :=
  match letters with
  | [] => []
  | letter :: letters' =>
      yielded (upstream env clock (allHeroesUrl env letter))
        ++ fetched env (S clock) letters'
  end.

(** The URLs of a sweep. *)
Definition sweep_urls (env : Env) : list string :=
  map (allHeroesUrl env) lettersToFetch.

(** The first record of a list that carries a given id. *)
Definition first_with_id (i : JsId) (heroes : list Hero.t) : option Hero.t :=
  find (fun hero => strict_eq (Hero.id hero) i) heroes.

(** [sub] occurs in [s]: the specification's unanchored substring. *)
Definition is_substring (sub s : string) : Prop :=
  exists before after, s = (before ++ sub ++ after)%string.

(** A record's alignment equals the requested one, both lower-cased; a
    record with no alignment matches nothing. *)
Definition alignment_is (wanted : string) (hero : Hero.t) : bool :=
  match Hero.alignment (Hero.biography hero) with
  | Some a => String.eqb (toLowerCase a) (toLowerCase wanted)
  | None => false
  end.

(** The upstream calls a sequence of requests makes once the cache holds
    records: one per lookup by id when an API key is set, none otherwise. *)
Definition lookup_urls (env : Env) (reqs : list Request) : list string :=
  flat_map (fun req =>
              match req with
              | GetById heroId =>
                  if truthy (SUPERHERO_API_KEY env)
                  then [heroUrl (interpolate (SUPERHERO_API_KEY env)) heroId]
                  else []
              | _ => []
              end) reqs.

Definition set_cachedHeroes (heroes : list Hero.t) (w : World) : World :=
  {| cachedHeroes := heroes; requests := requests w |}.

(* ===================================================================== *)
(** ** Sample records and upstream services *)
(* ===================================================================== *)

Definition mkHero (i : JsId) (n : string) (a : option string) : Hero.t :=
  {| Hero.id := i; Hero.name := n;
     Hero.biography := {| Hero.alignment := a; Hero.publisher := None |};
     Hero.image_url := None |}.

Definition spiderMan : Hero.t := mkHero (IdStr "620") "Spider-Man" (Some "good").
Definition batgirl : Hero.t := mkHero (IdStr "63") "Batgirl" (Some "good").
Definition joker : Hero.t := mkHero (IdStr "370") "Joker" (Some "bad").
Definition deadpool : Hero.t := mkHero (IdStr "213") "Deadpool" (Some "neutral").
Definition anonymous : Hero.t := mkHero (IdStr "9") "Nobody" None.
Definition blank : Hero.t := mkHero (IdStr "10") "Blank" (Some EmptyString).

Definition success_results (heroes : list Hero.t) : AxiosResult :=
  Resolved (Some {| response := Some "success"; results := Some heroes; record := None |}).

Definition error_envelope : AxiosResult :=
  Resolved (Some {| response := Some "error"; results := None; record := None |}).

Definition success_record (hero : Hero.t) : AxiosResult :=
  Resolved (Some {| response := Some "success"; results := None; record := Some hero |}).

Definition search_url (key letter : string) : string :=
  ("https://superheroapi.com/api/" ++ key ++ "/search/" ++ letter)%string.

(** Upstream knows six heroes and answers every call. *)
Definition env_up : Env :=
  {| SUPERHERO_API_KEY := Some "k";
     upstream := fun _ url =>
       if String.eqb url (search_url "k" "s") then success_results [spiderMan]
       else if String.eqb url (search_url "k" "b") then success_results [batgirl; blank]
       else if String.eqb url (search_url "k" "n") then success_results [anonymous]
       else if String.eqb url (search_url "k" "j") then success_results [joker]
       else if String.eqb url (search_url "k" "d") then success_results [deadpool]
       else if String.eqb url "https://superheroapi.com/api/k/620" then success_record spiderMan
       else error_envelope |}.

(** Upstream is unreachable. *)
Definition env_down : Env :=
  {| SUPERHERO_API_KEY := Some "k";
     upstream := fun _ _ => Rejected "connect ECONNREFUSED" |}.

(** Upstream is unreachable for the first 26 calls and reachable after. *)
Definition env_recovering : Env :=
  {| SUPERHERO_API_KEY := Some "k";
     upstream := fun clock url =>
       if (clock <? 26)%nat then Rejected "connect ECONNREFUSED"
       else upstream env_up clock url |}.


(** The process was started without an API key. *)
Definition env_no_key : Env :=
  {| SUPERHERO_API_KEY := None;
     upstream := upstream env_up |}.

(** Two letters yield a record with the same id under different names. *)
Definition spiderMan' : Hero.t := mkHero (IdStr "620") "Peter Parker" (Some "good").

Definition env_twice : Env :=
  {| SUPERHERO_API_KEY := Some "k";
     upstream := fun _ url =>
       if String.eqb url (search_url "k" "p") then success_results [spiderMan'; joker]
       else if String.eqb url (search_url "k" "s") then success_results [spiderMan; joker]
       else error_envelope |}.


(** [queryByAlignment] as the specification words it: the subsequence of
    the catalog whose alignment, lower-cased, equals the requested value,
    and the full catalog when the value is omitted or empty. *)
Definition queryByAlignment (alignment : option string) (catalog : list Hero.t)
  : list Hero.t :=
  match alignment with
  | None => catalog
  | Some EmptyString => catalog
  | Some wanted => filter (alignment_is wanted) catalog
  end.

(** [queryByNameSubstring] as the specification words it, with the code's
    [includes] as the test for a substring ([includes_spec] relates it to
    [is_substring]). *)
Definition queryByNameSubstring (text : string) (catalog : list Hero.t)
  : list Hero.t :=
  filter (fun hero => includes (toLowerCase (Hero.name hero)) (toLowerCase text))
         catalog.

(** The state in which a sweep started in [w] ends: every record upstream
    yielded is merged, and the 26 calls are on record. *)
Definition swept (env : Env) (w : World) : World :=
  {| cachedHeroes :=
       fold_left push_unique
                 (fetched env (List.length (requests w)) lettersToFetch)
                 (cachedHeroes w);
     requests := requests w ++ sweep_urls env |}.

(** The state in which [/api/heroes] leaves the process. *)
Definition after_listHeroes (env : Env) (w : World) : World :=
  if (List.length (cachedHeroes w) =? 0)%nat then swept env w else w.

(** Upstream answered a lookup by id, and the answer is not a success
    envelope: the way upstream reports that no record has this id. *)
Definition reports_no_match (reply : AxiosResult) : Prop :=
  exists data, reply = Resolved data /\
               forall d, data = Some d -> response d <> Some "success".

Definition not_found (heroId : string) : HttpResponse :=
  json 404 (JMessage ("No superhero found with ID: " ++ heroId)%string).


(** A process whose first request, a list of all heroes, ran the sweep
    against [env_up]. *)
Definition w_ready : World := snd (get_api_heroes env_up None initial).

(** The records a handler sent, when it sent a list of records. *)
Definition heroes_of (sent : Completion HttpResponse) : list Hero.t :=
  match sent with
  | Return res =>
      match body res with
      | JHeroes heroes => heroes
      | _ => []
      end
  | Throw _ => []
  end.

(** [cached'] is [cached] with records appended at its end. *)
Definition grown_from (cached cached' : list Hero.t) : Prop :=
  exists added, cached' = cached ++ added.

(** The number of upstream calls a request makes in a given state. *)
Definition calls_made (env : Env) (req : Request) (w : World) : nat :=
  match req with
  | ListHeroes _ => if (List.length (cachedHeroes w) =? 0)%nat then 26 else 0
  | SearchByName _ => 0
  | GetById _ => if truthy (SUPERHERO_API_KEY env) then 1 else 0
  end.

(** A reply to a letter search that brings no record: the call is rejected,
    or the reply has no data, no [results], or an empty [results]. *)
Definition brings_nothing (reply : AxiosResult) : Prop :=
  fetch_fails reply
  \/ reply = Resolved None
  \/ exists d, reply = Resolved (Some d)
               /\ (results d = None \/ results d = Some []).

(* ===================================================================== *)
(** ** The routes on any query parameter *)
(* ===================================================================== *)

(** A query parameter as Express hands it to a handler: absent, a string,
    or, when the parameter is repeated or written with brackets
    ([name=a&name=b], [name[x]=a]), an array or an object.  Arrays and
    objects are truthy and have no [toLowerCase] method.  The handlers of
    the section above are these handlers on the first two cases
    ([get_api_heroes_any_string], [get_api_superhero_any_string]). *)
Inductive QueryValue : Type :=
| QAbsent
| QString (s : string)
| QOther.

Definition of_string (v : option string) : QueryValue :=
  match v with
  | None => QAbsent
  | Some s => QString s
  end.

(** [array.filter(callback)] when the callback may throw: the first
    exception ends the filter. *)
Fixpoint filter_throwing {A} (callback : A -> Completion bool) (array : list A)
  : Completion (list A) :=
  match array with
  | [] => Return []
  | x :: rest =>
      match callback x with
      | Throw error => Throw error
      | Return keep =>
          match filter_throwing callback rest with
          | Throw error => Throw error
          | Return kept => Return (if keep then x :: kept else kept)
          end
      end
  end.

Definition completes {A} (c : Completion A) : Async A := fun w => (c, w).

(** [app.get('/api/heroes', ...)] on any [alignment]. *)
Definition get_api_heroes_any (env : Env) (alignment : QueryValue)
  : Async HttpResponse :=
  try_catch
    (cached <- read_cachedHeroes ;;
     (if (List.length cached =? 0)%nat then initializeHeroCache env else ret tt) ;;
     cached <- read_cachedHeroes ;;
     filteredHeroes <-
       match alignment with
       | QAbsent => ret cached
       | QString EmptyString => ret cached
       | _ =>
           completes
             (filter_throwing
                (fun hero =>
                   match Hero.alignment (Hero.biography hero) with
                   | Some (String _ _ as heroAlignment) =>
                       match alignment with
                       | QString alignment =>
                           Return (String.eqb (toLowerCase heroAlignment)
                                              (toLowerCase alignment))
                       | _ => Throw "TypeError: alignment.toLowerCase is not a function"
                       end
                   | _ => Return false
                   end)
                cached)
       end ;;
     ret (json 200 (JHeroes filteredHeroes)))
    (fun error => ret (json 500 (JMessage "Error fetching heroes."))).

(** [app.get('/api/superhero', ...)] on any [name]: the first statement of
    the handler, [req.query.name?.toLowerCase()], is outside its [try]. *)
Definition get_api_superhero_any (name : QueryValue) : Async HttpResponse :=
  match name with
  | QOther => throw "TypeError: req.query.name?.toLowerCase is not a function"
  | QString s => get_api_superhero (Some s)
  | QAbsent => get_api_superhero None
  end.

Inductive AnyRequest : Type :=
| ListHeroesAny (alignment : QueryValue)
| SearchByNameAny (name : QueryValue)
| GetByIdAny (heroId : string).

Definition handle_any (env : Env) (req : AnyRequest) : Async HttpResponse :=
  match req with
  | ListHeroesAny alignment => get_api_heroes_any env alignment
  | SearchByNameAny name => get_api_superhero_any name
  | GetByIdAny heroId => get_api_superhero_id env heroId
  end.

(** Some record of the list has an alignment that is present and not
    empty. *)
Definition some_alignment (heroes : list Hero.t) : bool :=
  existsb (fun hero => truthy (Hero.alignment (Hero.biography hero))) heroes.

(** Every character of a string is an ASCII character. *)
Fixpoint is_ascii (s : string) : bool :=
  match s with
  | EmptyString => true
  | String c s' => (nat_of_ascii c <? 128)%nat && is_ascii s'
  end.

(* ===================================================================== *)
(** ** The Characters page of the frontend *)
(* ===================================================================== *)

Module Characters.

(** What [await axios.get('/api/heroes')] gives the page: it rejects
    (transport failure, or a status outside 2xx) or resolves with the body
    of the reply. *)
Inductive ApiResult : Type :=
| ApiRejected (message : string)
| ApiResolved (data : Json).

(** The state hooks of the component.  [fetchAllHeroes] and [filterHeroes]
    are modelled as the functions they are, applied to a state; the render
    of the component, whose [useMemo] calls [filterHeroes] above the
    [const] that defines it, is not modelled. *)
Record State : Type := {
  searchQuery : string;
  heroes : list Hero.t;
  filteredHeroes : list Hero.t;
  error : string;
  alignment : string
}.

(** The state of a page that has just been mounted. *)
Definition mounted : State :=
  {| searchQuery := EmptyString; heroes := []; filteredHeroes := [];
     error := EmptyString; alignment := EmptyString |}.

Definition setError (message : string) (st : State) : State :=
  {| searchQuery := searchQuery st; heroes := heroes st;
     filteredHeroes := filteredHeroes st; error := message;
     alignment := alignment st |}.

Definition setFilteredHeroes (filtered : list Hero.t) (st : State) : State :=
  {| searchQuery := searchQuery st; heroes := heroes st;
     filteredHeroes := filtered; error := error st;
     alignment := alignment st |}.

Definition setHeroes (loaded : list Hero.t) (st : State) : State :=
  {| searchQuery := searchQuery st; heroes := loaded;
     filteredHeroes := filteredHeroes st; error := error st;
     alignment := alignment st |}.

(** [array.sort(compareFn)]: the sort of ECMAScript is stable and, for a
    consistent [compareFn], ascending, which determines its result: each
    element in turn goes before the first element it is smaller than. *)
Fixpoint insert (compareFn : Hero.t -> Hero.t -> Z) (x : Hero.t)
         (sorted : list Hero.t) : list Hero.t :=
  match sorted with
  | [] => [x]
  | y :: rest =>
      if (compareFn x y <? 0)%Z then x :: y :: rest
      else y :: insert compareFn x rest
  end.

Definition sort (compareFn : Hero.t -> Hero.t -> Z) (array : list Hero.t)
  : list Hero.t :=
  fold_left (fun sorted x => insert compareFn x sorted) array [].

(** [fetchAllHeroes], from the point where [axios.get('/api/heroes')]
    settles.  [localeCompare] is the string comparison of the browser. *)
Definition fetchAllHeroes (localeCompare : string -> string -> Z)
           (result : ApiResult) (st : State) : State :=
  match result with
  | ApiResolved (JHeroes data) =>
      let sortedHeroes :=
        sort (fun a b => localeCompare (Hero.name a) (Hero.name b)) data in
      setError EmptyString (setFilteredHeroes sortedHeroes (setHeroes sortedHeroes st))
  | ApiResolved _ => setError "Unexpected data format from API." st
  | ApiRejected _ => setError "Unable to fetch heroes. Please try again later." st
  end.

(** [filterHeroes(searchQuery, alignment)] *)
Definition filterHeroes (searchQuery alignment : string) (st : State) : State :=
  let filtered := heroes st in
  let filtered :=
    match searchQuery with
    | String _ _ =>
        filter (fun hero =>
                  includes (toLowerCase (Hero.name hero)) (toLowerCase searchQuery))
               filtered
    | EmptyString => filtered
    end in
  let filtered :=
    match alignment with
    | String _ _ =>
        filter (fun hero =>
                  match Hero.alignment (Hero.biography hero) with
                  | Some (String _ _ as heroAlignment) =>
                      String.eqb (toLowerCase heroAlignment) (toLowerCase alignment)
                  | _ => false
                  end)
               filtered
    | EmptyString => filtered
    end in
  let st := setFilteredHeroes filtered st in
  if (List.length filtered =? 0)%nat
  then setError "No heroes match your search criteria and alignment filter." st
  else setError EmptyString st.

(** The page's request for [/api/heroes], without alignment, served by the
    backend: axios resolves on a status from 200 to 299.  The body travels
    as JSON, which gives records of strings and numbers back as they were. *)
Definition axios_get_api_heroes (env : Env) (w : World) : ApiResult * World :=
  match get_api_heroes env None w with
  | (Return res, w') =>
      (if (200 <=? status res)%nat && (status res <? 300)%nat
       then ApiResolved (body res)
       else ApiRejected "Request failed", w')
  | (Throw message, w') => (ApiRejected message, w')
  end.

(** A comparison of names is consistent: smaller is asymmetric, and not
    smaller is transitive. *)
Definition consistent (localeCompare : string -> string -> Z) : Prop :=
  (forall a b, (localeCompare a b < 0)%Z -> ~ (localeCompare b a < 0)%Z)
  /\ (forall a b c, ~ (localeCompare b a < 0)%Z -> ~ (localeCompare c b < 0)%Z ->
                    ~ (localeCompare c a < 0)%Z).

(** [a] may come before [b] in a list sorted by name. *)
Definition name_le (localeCompare : string -> string -> Z) (a b : Hero.t) : Prop :=
  ~ (localeCompare (Hero.name b) (Hero.name a) < 0)%Z.

(** A comparison for the examples: shorter names first. *)
Definition byLength (a b : string) : Z :=
  (Z.of_nat (String.length a) - Z.of_nat (String.length b))%Z.

End Characters.

(* ===================================================================== *)
(** ** Strings and ids *)
(* ===================================================================== *)

Lemma strict_eq_true (a b : JsId) : strict_eq a b = true <-> a = b.
Proof.
  destruct a as [s | n], b as [t | m]; simpl; split; intros H;
    try discriminate; try congruence.
  - apply String.eqb_eq in H. now subst.
  - inversion H. apply String.eqb_refl.
  - apply Z.eqb_eq in H. now subst.
  - inversion H. apply Z.eqb_refl.
Qed.

Lemma strict_eq_refl (a : JsId) : strict_eq a a = true.
Proof. now apply strict_eq_true. Qed.

Lemma prefix_app (sub s : string) :
  String.prefix sub s = true <-> exists after, s = (sub ++ after)%string.
Proof.
  revert s. induction sub as [| c sub IH]; intros s.
  - split; [intros _; now exists s | intros _; now destruct s].
  - destruct s as [| d s]; simpl.
    + split; [discriminate | intros [after H]; discriminate].
    + destruct (ascii_dec c d) as [Hcd | Hcd].
      * subst d. rewrite IH. split; intros [after H]; exists after; congruence.
      * split; [discriminate | intros [after H]; congruence].
Qed.

(** The code's [includes] decides the specification's substring relation. *)
Lemma includes_spec (s sub : string) :
  includes s sub = true <-> is_substring sub s.
Proof.
  unfold is_substring. induction s as [| c s IH].
  - cbn [includes]. rewrite orb_false_r, prefix_app. split.
    + intros [after H]. now exists EmptyString, after.
    + intros [before [after H]]. destruct before; [now exists after |].
      discriminate.
  - cbn [includes]. rewrite orb_true_iff, IH, prefix_app. split.
    + intros [[after H] | [before [after H]]].
      * now exists EmptyString, after.
      * exists (String c before), after. simpl. now rewrite H.
    + intros [before [after H]]. destruct before as [| d before].
      * left. now exists after.
      * right. exists before, after. simpl in H. congruence.
Qed.

(** The code's alignment test is the specification's. *)
Lemma alignment_test (wanted : string) (hero : Hero.t) :
  wanted <> EmptyString ->
  match Hero.alignment (Hero.biography hero) with
  | Some (String _ _ as heroAlignment) =>
      String.eqb (toLowerCase heroAlignment) (toLowerCase wanted)
  | _ => false
  end
  = alignment_is wanted hero.
Proof.
  intros Hw. unfold alignment_is.
  destruct (Hero.alignment (Hero.biography hero)) as [[| c a] |]; try reflexivity.
  destruct wanted; [congruence | reflexivity].
Qed.

(* ===================================================================== *)
(** ** The merge step *)
(* ===================================================================== *)

Lemma existsb_id_In (i : JsId) (heroes : list Hero.t) :
  existsb (fun cachedHero => strict_eq (Hero.id cachedHero) i) heroes = true
  <-> In i (map Hero.id heroes).
Proof.
  rewrite existsb_exists, in_map_iff. split.
  - intros [h [Hin Heq]]. apply strict_eq_true in Heq. now exists h.
  - intros [h [Heq Hin]]. exists h. split; [assumption |].
    now apply strict_eq_true.
Qed.

Lemma push_unique_fresh (cached : list Hero.t) (hero : Hero.t) :
  ~ In (Hero.id hero) (map Hero.id cached) ->
  push_unique cached hero = cached ++ [hero].
Proof.
  intros Hfresh. unfold push_unique.
  destruct (existsb _ cached) eqn:E; [| reflexivity].
  apply existsb_id_In in E. contradiction.
Qed.

Lemma push_unique_known (cached : list Hero.t) (hero : Hero.t) :
  In (Hero.id hero) (map Hero.id cached) ->
  push_unique cached hero = cached.
Proof.
  intros Hin. unfold push_unique.
  apply existsb_id_In in Hin. now rewrite Hin.
Qed.

Lemma push_unique_cases (cached : list Hero.t) (hero : Hero.t) :
  (In (Hero.id hero) (map Hero.id cached) /\ push_unique cached hero = cached)
  \/ (~ In (Hero.id hero) (map Hero.id cached)
      /\ push_unique cached hero = cached ++ [hero]).
Proof.
  destruct (existsb (fun c => strict_eq (Hero.id c) (Hero.id hero)) cached) eqn:E.
  - left. apply existsb_id_In in E. split; [assumption |].
    now apply push_unique_known.
  - right. assert (~ In (Hero.id hero) (map Hero.id cached)) as Hn.
    { intros Hin. apply existsb_id_In in Hin. congruence. }
    split; [assumption |]. now apply push_unique_fresh.
Qed.

Lemma NoDup_snoc {A} (l : list A) (x : A) :
  NoDup l -> ~ In x l -> NoDup (l ++ [x]).
Proof.
  intros Hl Hx. induction Hl as [| y l Hy Hl IH]; simpl.
  - constructor; [intros [] | constructor].
  - constructor.
    + rewrite in_app_iff. simpl. intros [H | [H | []]]; [contradiction |].
      subst. apply Hx. now left.
    + apply IH. intros H. apply Hx. now right.
Qed.

(** One push keeps the ids of the cache distinct. *)
Lemma push_unique_NoDup (cached : list Hero.t) (hero : Hero.t) :
  NoDup (map Hero.id cached) -> NoDup (map Hero.id (push_unique cached hero)).
Proof.
  intros Hnd.
  destruct (push_unique_cases cached hero) as [[_ ->] | [Hfresh ->]];
    [assumption |].
  rewrite map_app. simpl. now apply NoDup_snoc.
Qed.

Lemma merge_NoDup (heroes cached : list Hero.t) :
  NoDup (map Hero.id cached) ->
  NoDup (map Hero.id (fold_left push_unique heroes cached)).
Proof.
  revert cached. induction heroes as [| hero heroes IH]; intros cached Hnd; simpl.
  - assumption.
  - apply IH. now apply push_unique_NoDup.
Qed.

Lemma first_with_id_app (i : JsId) (l1 l2 : list Hero.t) :
  first_with_id i (l1 ++ l2) =
  match first_with_id i l1 with
  | Some hero => Some hero
  | None => first_with_id i l2
  end.
Proof.
  unfold first_with_id. induction l1 as [| h l1 IH]; simpl; [reflexivity |].
  now destruct (strict_eq (Hero.id h) i).
Qed.

Lemma first_with_id_None (i : JsId) (heroes : list Hero.t) :
  first_with_id i heroes = None <-> ~ In i (map Hero.id heroes).
Proof.
  unfold first_with_id. induction heroes as [| h heroes IH]; simpl.
  - split; [intros _ [] | reflexivity].
  - destruct (strict_eq (Hero.id h) i) eqn:E.
    + apply strict_eq_true in E. split; [discriminate |].
      intros H. exfalso. apply H. now left.
    + rewrite IH. split.
      * intros H [Heq | Hin]; [| contradiction].
        subst. now rewrite strict_eq_refl in E.
      * intros H Hin. apply H. now right.
Qed.

(** One push never changes which record is the first to carry an id. *)
Lemma push_unique_first (i : JsId) (cached : list Hero.t) (hero : Hero.t) :
  first_with_id i (push_unique cached hero) = first_with_id i (cached ++ [hero]).
Proof.
  destruct (push_unique_cases cached hero) as [[Hin ->] | [_ ->]];
    [| reflexivity].
  rewrite first_with_id_app.
  destruct (first_with_id i cached) eqn:E; [reflexivity |].
  apply first_with_id_None in E. unfold first_with_id. simpl.
  destruct (strict_eq (Hero.id hero) i) eqn:E'; [| reflexivity].
  apply strict_eq_true in E'. subst. contradiction.
Qed.

Lemma merge_first (i : JsId) (heroes cached : list Hero.t) :
  first_with_id i (fold_left push_unique heroes cached)
  = first_with_id i (cached ++ heroes).
Proof.
  revert cached. induction heroes as [| hero heroes IH]; intros cached; simpl.
  - now rewrite app_nil_r.
  - rewrite IH. rewrite !first_with_id_app, push_unique_first, first_with_id_app.
    change (hero :: heroes) with ([hero] ++ heroes).
    rewrite first_with_id_app.
    now destruct (first_with_id i cached), (first_with_id i [hero]).
Qed.


(** In a list whose ids are distinct, a record is the first with its id. *)
Lemma first_with_id_In (heroes : list Hero.t) (hero : Hero.t) :
  NoDup (map Hero.id heroes) ->
  (In hero heroes <-> first_with_id (Hero.id hero) heroes = Some hero).
Proof.
  unfold first_with_id. intros Hnd. split.
  - induction heroes as [| h heroes IH]; simpl; [intros [] |].
    inversion Hnd as [| ? ? Hnotin Hnd']; subst.
    intros [-> | Hin].
    + now rewrite strict_eq_refl.
    + destruct (strict_eq (Hero.id h) (Hero.id hero)) eqn:E.
      * apply strict_eq_true in E. exfalso. apply Hnotin. rewrite E.
        now apply in_map.
      * now apply IH.
  - intros H. now apply find_some in H.
Qed.

(* ===================================================================== *)
(** ** What the functions of the server compute *)
(* ===================================================================== *)

(** A letter-fetch never throws: it records its call and merges what
    upstream yielded, which is nothing when the call failed. *)
Lemma fetchHeroesByLetter_run (env : Env) (letter : string) (w : World) :
  fetchHeroesByLetter env letter w =
  (Return tt,
   {| cachedHeroes :=
        fold_left push_unique
          (yielded (upstream env (List.length (requests w)) (allHeroesUrl env letter)))
          (cachedHeroes w);
      requests := requests w ++ [allHeroesUrl env letter] |}).
Proof.
  unfold fetchHeroesByLetter, try_catch, bind, axios_get, yielded.
  destruct (upstream env (List.length (requests w)) (allHeroesUrl env letter))
    as [message | [d |]]; try reflexivity.
  destruct (results d) as [[| hero heroes] |]; reflexivity.
Qed.

Lemma for_of_fetch_run (env : Env) (letters : list string) (w : World) :
  for_of letters (fetchHeroesByLetter env) w =
  (Return tt,
   {| cachedHeroes :=
        fold_left push_unique (fetched env (List.length (requests w)) letters)
                  (cachedHeroes w);
      requests := requests w ++ map (allHeroesUrl env) letters |}).
Proof.
  revert w. induction letters as [| letter letters IH]; intros w.
  - simpl. unfold ret. rewrite app_nil_r. now destruct w.
  - cbn [for_of fetched map]. unfold bind at 1.
    rewrite fetchHeroesByLetter_run, IH. cbn [cachedHeroes requests].
    rewrite fold_left_app, length_app, Nat.add_1_r, <- app_assoc.
    reflexivity.
Qed.

(** The sweep always completes, whatever upstream answers. *)
Lemma initializeHeroCache_run (env : Env) (w : World) :
  initializeHeroCache env w = (Return tt, swept env w).
Proof. unfold initializeHeroCache. now rewrite for_of_fetch_run. Qed.

Lemma get_api_heroes_run (env : Env) (alignment : option string) (w : World) :
  get_api_heroes env alignment w =
  (Return (json 200 (JHeroes (queryByAlignment alignment
                                (cachedHeroes (after_listHeroes env w))))),
   after_listHeroes env w).
Proof.
  unfold get_api_heroes, after_listHeroes, try_catch, bind, read_cachedHeroes, ret.
  destruct (List.length (cachedHeroes w) =? 0)%nat.
  - rewrite initializeHeroCache_run.
    destruct alignment as [[| c a] |]; try reflexivity.
    cbn [queryByAlignment]. do 4 f_equal.
    apply filter_ext. intros hero. now apply alignment_test.
  - destruct alignment as [[| c a] |]; try reflexivity.
    cbn [truthy queryByAlignment]. do 4 f_equal.
    apply filter_ext. intros hero. now apply alignment_test.
Qed.

Lemma get_api_superhero_run (name : option string) (w : World) :
  get_api_superhero name w =
  (Return
     (match name with
      | Some (String c text) =>
          match queryByNameSubstring (String c text) (cachedHeroes w) with
          | [] => json 404 (JMessage ("No superhero found with name: "
                                        ++ toLowerCase (String c text))%string)
          | matchingHeroes => json 200 (JHeroes matchingHeroes)
          end
      | _ => json 400 (JMessage "Please provide a superhero name.")
      end),
   w).
Proof.
  destruct name as [[| c text] |]; try reflexivity.
  unfold get_api_superhero, queryByNameSubstring.
  cbn [option_map toLowerCase truthy negb interpolate].
  unfold try_catch, bind, read_cachedHeroes, ret.
  now destruct (filter _ (cachedHeroes w)).
Qed.

Lemma get_api_superhero_id_run (env : Env) (heroId : string) (w : World) :
  get_api_superhero_id env heroId w =
  if truthy (SUPERHERO_API_KEY env)
  then
    let url := heroUrl (interpolate (SUPERHERO_API_KEY env)) heroId in
    (Return
       (match upstream env (List.length (requests w)) url with
        | Rejected _ => json 500 (JMessage "Error fetching superhero data.")
        | Resolved (Some d) =>
            match response d with
            | Some r => if String.eqb r "success" then json 200 (JData d)
                        else not_found heroId
            | None => not_found heroId
            end
        | Resolved None => not_found heroId
        end),
     {| cachedHeroes := cachedHeroes w; requests := requests w ++ [url] |})
  else (Return (json 500 (JMessage "API key is missing")), w).
Proof.
  unfold get_api_superhero_id, try_catch, bind, axios_get, ret, not_found.
  destruct (truthy (SUPERHERO_API_KEY env)); [| reflexivity].
  cbn [negb].
  destruct (upstream env (List.length (requests w))
                     (heroUrl (interpolate (SUPERHERO_API_KEY env)) heroId))
    as [message | [d |]]; try reflexivity.
  destruct (response d) as [r |]; [| reflexivity].
  now destruct (String.eqb r "success").
Qed.

Lemma nonempty_length {A} (l : list A) :
  l <> [] -> (List.length l =? 0)%nat = false.
Proof. destruct l; [congruence | reflexivity]. Qed.

(** With records in the cache, a request leaves the cache as it is and
    calls upstream only to look an id up. *)
Lemma handle_nonempty (env : Env) (req : Request) (w : World) :
  cachedHeroes w <> [] ->
  snd (handle env req w) =
  {| cachedHeroes := cachedHeroes w;
     requests := requests w ++ lookup_urls env [req] |}.
Proof.
  intros Hne. destruct req as [alignment | name | heroId]; cbn [handle lookup_urls flat_map].
  - rewrite get_api_heroes_run. unfold after_listHeroes.
    rewrite (nonempty_length _ Hne). cbn. rewrite app_nil_r. now destruct w.
  - rewrite get_api_superhero_run. cbn. rewrite app_nil_r. now destruct w.
  - rewrite get_api_superhero_id_run.
    destruct (truthy (SUPERHERO_API_KEY env)); cbn.
    + reflexivity.
    + rewrite app_nil_r. now destruct w.
Qed.

Lemma lookup_urls_cons (env : Env) (req : Request) (reqs : list Request) :
  lookup_urls env (req :: reqs) = lookup_urls env [req] ++ lookup_urls env reqs.
Proof. unfold lookup_urls. cbn [flat_map]. now rewrite app_nil_r. Qed.

(** With an empty cache, [/api/heroes] runs the sweep, also when a sweep
    ran before and found nothing. *)
Lemma empty_cache_is_swept (env : Env) (alignment : option string) (w : World) :
  cachedHeroes w = [] ->
  snd (get_api_heroes env alignment w) = swept env w.
Proof.
  intros He. rewrite get_api_heroes_run. unfold after_listHeroes.
  now rewrite He.
Qed.

Lemma for_of_merge_run (batches : list (list Hero.t)) (w : World) :
  for_of batches forEach_push_unique w =
  (Return tt,
   {| cachedHeroes := fold_left push_unique (List.concat batches) (cachedHeroes w);
      requests := requests w |}).
Proof.
  revert w. induction batches as [| batch batches IH]; intros w.
  - now destruct w.
  - cbn [for_of List.concat]. unfold bind at 1.
    unfold forEach_push_unique at 1, bind, read_cachedHeroes, write_cachedHeroes.
    rewrite IH. cbn [cachedHeroes requests]. now rewrite fold_left_app.
Qed.


Lemma fetch_fails_yields_nothing (reply : AxiosResult) :
  fetch_fails reply -> yielded reply = [].
Proof. intros [message ->]. reflexivity. Qed.


(** When every call of a run of letter-fetches fails, nothing is fetched. *)
Lemma fetched_all_fail (env : Env) (letters : list string) (clock : nat) :
  (forall i letter,
      nth_error letters i = Some letter ->
      fetch_fails (upstream env (clock + i) (allHeroesUrl env letter))) ->
  fetched env clock letters = [].
Proof.
  revert clock. induction letters as [| l letters IH]; intros clock Hfail.
  - reflexivity.
  - cbn [fetched]. rewrite fetch_fails_yields_nothing.
    + apply IH. intros i letter Hi.
      replace (S clock + i) with (clock + S i) by lia. now apply Hfail.
    + specialize (Hfail 0 l eq_refl). now rewrite Nat.add_0_r in Hfail.
Qed.


Lemma serve_cons (env : Env) (req : Request) (reqs : list Request) (w : World) :
  serve env (req :: reqs) w = serve env reqs (snd (handle env req w)).
Proof. reflexivity. Qed.

(* ===================================================================== *)
(** ** The lifecycle of the cache *)
(* ===================================================================== *)

(** C1, as the code has it: the server keeps no Ready flag; [/api/heroes]
    sweeps whenever the cache is empty.  So, once the cache holds a record,
    no sequence of later requests sweeps again or changes the cache: the
    only upstream calls they make are the lookups by id.  While the cache is
    empty, also after a sweep that found nothing, [/api/heroes] sweeps. *)
Theorem cache_with_records_is_final
        (env : Env) (reqs : list Request) (alignment : option string) (w : World) :
  (cachedHeroes w <> [] ->
   cachedHeroes (serve env reqs w) = cachedHeroes w /\
   requests (serve env reqs w) = requests w ++ lookup_urls env reqs)
  /\ (cachedHeroes w = [] ->
      snd (get_api_heroes env alignment w) = swept env w).
Proof.
  split; [| apply empty_cache_is_swept].
  revert w. induction reqs as [| req reqs IH]; intros w Hne.
  - cbn. now rewrite app_nil_r.
  - rewrite serve_cons, lookup_urls_cons.
    pose proof (handle_nonempty env req w Hne) as Hstep.
    destruct (IH (snd (handle env req w))) as [Hc Hr].
    + now rewrite Hstep.
    + rewrite Hc, Hr, Hstep. cbn [cachedHeroes requests].
      now rewrite app_assoc.
Qed.

Lemma cache_with_records_is_final_witness :
  cachedHeroes w_ready <> [] /\
  cachedHeroes
    (serve env_up [ListHeroes (Some "bad"); SearchByName (Some "man");
                   GetById "620"; ListHeroes None] w_ready)
  = cachedHeroes w_ready /\
  requests
    (serve env_up [ListHeroes (Some "bad"); SearchByName (Some "man");
                   GetById "620"; ListHeroes None] w_ready)
  = requests w_ready ++ ["https://superheroapi.com/api/k/620"] /\
  cachedHeroes initial = [] /\
  snd (get_api_heroes env_down None initial) = swept env_down initial.
Proof.
  assert (cachedHeroes w_ready <> []) as Hne by (vm_compute; discriminate).
  split; [exact Hne |].
  split; [exact (proj1 (proj1 (cache_with_records_is_final env_up _ None w_ready) Hne)) |].
  split; [exact (proj2 (proj1 (cache_with_records_is_final env_up _ None w_ready) Hne)) |].
  split; [reflexivity |].
  exact (proj2 (cache_with_records_is_final env_down [] None initial) eq_refl).
Defined.

(** C1, as stated, fails: upstream is down during the first sweep, which
    ends with an empty cache after 26 calls; the next [/api/heroes] request
    sweeps again (26 more calls) and the cache, empty until then, is
    filled. *)
Lemma failed_sweep_is_repeated :
  fst (get_api_heroes env_recovering None initial) = Return (json 200 (JHeroes []))
  /\ cachedHeroes (snd (get_api_heroes env_recovering None initial)) = []
  /\ requests (snd (get_api_heroes env_recovering None initial))
     = sweep_urls env_recovering
  /\ requests (snd (get_api_heroes env_recovering None
                      (snd (get_api_heroes env_recovering None initial))))
     = sweep_urls env_recovering ++ sweep_urls env_recovering
  /\ cachedHeroes (snd (get_api_heroes env_recovering None
                          (snd (get_api_heroes env_recovering None initial))))
     = [batgirl; blank; deadpool; joker; anonymous; spiderMan].
Proof. vm_compute. repeat split. Qed.

(** C2: [/api/superhero] never sweeps, whatever the state of the cache; on
    a process that has served nothing yet, a search for "man" is answered
    404 from the empty cache with no upstream call, although the same
    search after [/api/heroes] finds Spider-Man. *)
Theorem search_is_answered_from_unpopulated_cache :
  (forall name w, snd (get_api_superhero name w) = w)
  /\ get_api_superhero (Some "man") initial
     = (Return (json 404 (JMessage "No superhero found with name: man")), initial)
  /\ fst (get_api_superhero (Some "man") w_ready)
     = Return (json 200 (JHeroes [spiderMan])).
Proof.
  split; [| split].
  - intros name w. now rewrite get_api_superhero_run.
  - reflexivity.
  - vm_compute. reflexivity.
Qed.

(* ===================================================================== *)
(** ** Merging *)
(* ===================================================================== *)

(** C3: merge any sequence of result lists into a cache whose ids are
    distinct (the empty cache of a new process is one).  The merge
    completes, the ids of the cache stay distinct, and a record is in the
    cache exactly when it is the first with its id among the records that
    were there and those that arrived, in order of arrival: a later record
    with a known id is dropped, whatever its name. *)
Theorem merge_keeps_first_of_each_id (batches : list (list Hero.t)) (w : World) :
  NoDup (map Hero.id (cachedHeroes w)) ->
  fst (for_of batches forEach_push_unique w) = Return tt
  /\ NoDup (map Hero.id (cachedHeroes (snd (for_of batches forEach_push_unique w))))
  /\ (forall hero,
         In hero (cachedHeroes (snd (for_of batches forEach_push_unique w)))
         <-> first_with_id (Hero.id hero) (cachedHeroes w ++ List.concat batches)
             = Some hero)
  /\ requests (snd (for_of batches forEach_push_unique w)) = requests w.
Proof.
  intros Hnd. rewrite for_of_merge_run. cbn [fst snd cachedHeroes requests].
  assert (NoDup (map Hero.id (fold_left push_unique (List.concat batches)
                                        (cachedHeroes w)))) as Hnd'
      by now apply merge_NoDup.
  repeat split; try assumption.
  - intros Hin. apply (first_with_id_In _ _ Hnd') in Hin.
    now rewrite merge_first in Hin.
  - intros Hfirst. apply (first_with_id_In _ _ Hnd').
    now rewrite merge_first.
Qed.

Lemma merge_keeps_first_of_each_id_witness :
  NoDup (map Hero.id (cachedHeroes initial))
  /\ cachedHeroes (snd (for_of [[spiderMan'; joker]; [spiderMan; joker; batgirl]]
                               forEach_push_unique initial))
     = [spiderMan'; joker; batgirl]
  /\ (In spiderMan (cachedHeroes
                      (snd (for_of [[spiderMan'; joker]; [spiderMan; joker; batgirl]]
                                   forEach_push_unique initial)))
      <-> first_with_id (Hero.id spiderMan)
                        (cachedHeroes initial
                           ++ List.concat [[spiderMan'; joker]; [spiderMan; joker; batgirl]])
          = Some spiderMan).
Proof.
  assert (NoDup (map Hero.id (cachedHeroes initial))) as Hnd by constructor.
  split; [exact Hnd |]. split; [reflexivity |].
  exact (proj1 (proj2 (proj2
    (merge_keeps_first_of_each_id
       [[spiderMan'; joker]; [spiderMan; joker; batgirl]] initial Hnd))) spiderMan).
Defined.

(** [===] tells a string id from a numeric one: the two are kept apart. *)
Example string_and_number_ids_are_distinct :
  fold_left push_unique [mkHero (IdNum 620) "Spider-Man" (Some "good")] [spiderMan]
  = [spiderMan; mkHero (IdNum 620) "Spider-Man" (Some "good")].
Proof. reflexivity. Qed.

(** Two letters of a sweep yield a record with the id 620 under different
    names: the one of the earlier letter, [p], is kept. *)
Example sweep_keeps_the_earlier_letter :
  cachedHeroes (snd (get_api_heroes env_twice None initial)) = [spiderMan'; joker].
Proof. vm_compute. reflexivity. Qed.

(** The sweep is such a merge: of what upstream yielded, letter by letter. *)
Lemma sweep_keeps_first_of_each_id (env : Env) (w : World) :
  NoDup (map Hero.id (cachedHeroes w)) ->
  NoDup (map Hero.id (cachedHeroes (swept env w)))
  /\ forall i,
       first_with_id i (cachedHeroes (swept env w))
       = first_with_id i (cachedHeroes w
                            ++ fetched env (List.length (requests w)) lettersToFetch).
Proof.
  intros Hnd. unfold swept. cbn [cachedHeroes]. split.
  - now apply merge_NoDup.
  - intros i. apply merge_first.
Qed.

(* ===================================================================== *)
(** ** Failures of upstream during the sweep *)
(* ===================================================================== *)



(** C9, as the code has it: a process with an empty cache receives
    [/api/heroes] while every one of the 26 letter-fetches fails.  The
    sweep runs to its end, the cache stays empty, and the request is
    answered 200 with the empty list.  Nothing marks the cache as ready:
    the state the request leaves is one in which the next [/api/heroes],
    whatever its alignment, runs the sweep again. *)
Theorem total_failure_gives_empty_list
        (env : Env) (alignment : option string) (w : World) :
  cachedHeroes w = [] ->
  (forall i letter,
      nth_error lettersToFetch i = Some letter ->
      fetch_fails
        (upstream env (List.length (requests w) + i) (allHeroesUrl env letter))) ->
  get_api_heroes env alignment w =
  (Return (json 200 (JHeroes [])),
   {| cachedHeroes := []; requests := requests w ++ sweep_urls env |})
  /\ forall next,
       requests (snd (get_api_heroes env next
                        (snd (get_api_heroes env alignment w))))
       = (requests w ++ sweep_urls env) ++ sweep_urls env.
Proof.
  intros Hempty Hfail.
  assert (get_api_heroes env alignment w =
          (Return (json 200 (JHeroes [])),
           {| cachedHeroes := []; requests := requests w ++ sweep_urls env |}))
    as Hfirst.
  { rewrite get_api_heroes_run. unfold after_listHeroes, swept.
    rewrite Hempty. cbn [List.length Nat.eqb cachedHeroes].
    rewrite (fetched_all_fail env lettersToFetch _ Hfail). cbn [fold_left].
    now destruct alignment as [[| c a] |]. }
  split; [exact Hfirst |].
  intros next. rewrite Hfirst. cbn [snd].
  now rewrite empty_cache_is_swept.
Qed.

Lemma total_failure_gives_empty_list_witness :
  get_api_heroes env_down (Some "good") initial =
  (Return (json 200 (JHeroes [])),
   {| cachedHeroes := []; requests := requests initial ++ sweep_urls env_down |})
  /\ requests (snd (get_api_heroes env_down None
                      (snd (get_api_heroes env_down (Some "good") initial))))
     = (requests initial ++ sweep_urls env_down) ++ sweep_urls env_down.
Proof.
  assert (forall i letter,
             nth_error lettersToFetch i = Some letter ->
             fetch_fails
               (upstream env_down (List.length (requests initial) + i)
                         (allHeroesUrl env_down letter))) as Hfail.
  { intros i letter Hi. exists "connect ECONNREFUSED". reflexivity. }
  split.
  - exact (proj1 (total_failure_gives_empty_list env_down (Some "good") initial
                    eq_refl Hfail)).
  - exact (proj2 (total_failure_gives_empty_list env_down (Some "good") initial
                    eq_refl Hfail) None).
Defined.

(** C9, as stated, fails in its clause on readiness: with upstream down,
    the first [/api/heroes] is answered 200 with the empty list after 26
    calls, and the second one, served in the state the first left, makes 26
    more: the cache was not marked ready. *)
Lemma total_failure_is_swept_again :
  fst (get_api_heroes env_down None initial) = Return (json 200 (JHeroes []))
  /\ cachedHeroes (snd (get_api_heroes env_down None initial)) = []
  /\ List.length (requests (snd (get_api_heroes env_down None initial))) = 26
  /\ fst (get_api_heroes env_down None (snd (get_api_heroes env_down None initial)))
     = Return (json 200 (JHeroes []))
  /\ List.length
       (requests (snd (get_api_heroes env_down None
                         (snd (get_api_heroes env_down None initial))))) = 52.
Proof. vm_compute. repeat split. Qed.

(* ===================================================================== *)
(** ** Queries *)
(* ===================================================================== *)

Lemma queryByAlignment_In (wanted : string) (catalog : list Hero.t) (hero : Hero.t) :
  wanted <> EmptyString ->
  (In hero (queryByAlignment (Some wanted) catalog) <->
   In hero catalog /\
   exists a, Hero.alignment (Hero.biography hero) = Some a
             /\ a <> EmptyString
             /\ toLowerCase a = toLowerCase wanted).
Proof.
  intros Hw. destruct wanted as [| c wanted]; [congruence |].
  cbn [queryByAlignment]. rewrite filter_In. unfold alignment_is.
  destruct (Hero.alignment (Hero.biography hero)) as [a |].
  - rewrite String.eqb_eq. split.
    + intros [Hin Heq]. split; [assumption |]. exists a.
      repeat split; try assumption.
      intros ->. discriminate.
    + intros [Hin [a' [Ha [_ Heq]]]]. inversion Ha; subst. now split.
  - split; [intros [_ H]; discriminate |].
    intros [_ [a [Ha _]]]. discriminate.
Qed.

(** C5: [/api/heroes] answers 200 with the specification's
    [queryByAlignment] of the cache (the cache as it is once the handler
    has swept, if it had to): the full cache when the alignment is omitted
    or empty, otherwise the sub-list, in order, of the records whose
    alignment is present, not empty, and equal to the requested one when
    both are lower-cased.  Requests that differ in case only are answered
    alike. *)
Theorem listHeroes_filters_by_alignment
        (env : Env) (alignment : option string) (w : World) :
  get_api_heroes env alignment w =
    (Return (json 200 (JHeroes (queryByAlignment alignment
                                  (cachedHeroes (after_listHeroes env w))))),
     after_listHeroes env w)
  /\ queryByAlignment None (cachedHeroes (after_listHeroes env w))
     = cachedHeroes (after_listHeroes env w)
  /\ queryByAlignment (Some EmptyString) (cachedHeroes (after_listHeroes env w))
     = cachedHeroes (after_listHeroes env w)
  /\ (forall wanted, wanted <> EmptyString -> alignment = Some wanted ->
        queryByAlignment alignment (cachedHeroes (after_listHeroes env w))
        = filter (fun hero =>
                    match Hero.alignment (Hero.biography hero) with
                    | Some a => String.eqb (toLowerCase a) (toLowerCase wanted)
                    | None => false
                    end) (cachedHeroes (after_listHeroes env w))
        /\ forall hero,
            In hero (queryByAlignment alignment (cachedHeroes (after_listHeroes env w)))
            <-> In hero (cachedHeroes (after_listHeroes env w))
                /\ exists a, Hero.alignment (Hero.biography hero) = Some a
                             /\ a <> EmptyString
                             /\ toLowerCase a = toLowerCase wanted)
  /\ (forall other wanted,
        alignment = Some wanted -> toLowerCase other = toLowerCase wanted ->
        get_api_heroes env (Some other) w = get_api_heroes env alignment w)
  /\ (cachedHeroes w <> [] -> after_listHeroes env w = w).
Proof.
  split; [apply get_api_heroes_run |].
  split; [reflexivity |]. split; [reflexivity |].
  split; [| split].
  - intros wanted Hw ->. split.
    + destruct wanted; [congruence | reflexivity].
    + intros hero. now apply queryByAlignment_In.
  - intros other wanted -> Hlow. rewrite !get_api_heroes_run.
    do 4 f_equal.
    destruct other as [| c other], wanted as [| d wanted];
      try discriminate; try reflexivity.
    cbn [queryByAlignment]. apply filter_ext. intros hero.
    unfold alignment_is. now rewrite Hlow.
  - intros Hne. unfold after_listHeroes. now rewrite nonempty_length.
Qed.

Lemma listHeroes_filters_by_alignment_witness :
  get_api_heroes env_up (Some "GOOD") w_ready
  = (Return (json 200 (JHeroes [batgirl; spiderMan])), w_ready)
  /\ get_api_heroes env_up (Some "GOOD") w_ready
     = get_api_heroes env_up (Some "good") w_ready
  /\ cachedHeroes w_ready = [batgirl; blank; deadpool; joker; anonymous; spiderMan]
  /\ (In blank (queryByAlignment (Some "good")
                                 (cachedHeroes (after_listHeroes env_up w_ready)))
      <-> In blank (cachedHeroes (after_listHeroes env_up w_ready))
          /\ exists a, Hero.alignment (Hero.biography blank) = Some a
                       /\ a <> EmptyString
                       /\ toLowerCase a = toLowerCase "good").
Proof.
  assert ("good" <> EmptyString) as Hne by discriminate.
  split; [vm_compute; reflexivity |].
  split; [exact (proj1 (proj2 (proj2 (proj2 (proj2
            (listHeroes_filters_by_alignment env_up (Some "good") w_ready)))))
            "GOOD" "good" eq_refl eq_refl) |].
  split; [vm_compute; reflexivity |].
  exact (proj2 (proj1 (proj2 (proj2 (proj2
           (listHeroes_filters_by_alignment env_up (Some "good") w_ready))))
           "good" Hne eq_refl) blank).
Defined.

(** C10: [/api/heroes] does not validate the alignment: a value that is
    none of good, bad and neutral (and not empty) is answered 200 like any
    other, with the records of the cache whose alignment equals it when
    both are lower-cased. *)
Theorem listHeroes_accepts_any_alignment
        (env : Env) (alignment : string) (w : World) :
  ~ In alignment ["good"; "bad"; "neutral"] ->
  alignment <> EmptyString ->
  get_api_heroes env (Some alignment) w =
  (Return (json 200 (JHeroes (filter (alignment_is alignment)
                                     (cachedHeroes (after_listHeroes env w))))),
   after_listHeroes env w).
Proof.
  intros _ Hne. rewrite get_api_heroes_run.
  destruct alignment; [congruence | reflexivity].
Qed.

Lemma listHeroes_accepts_any_alignment_witness :
  get_api_heroes env_up (Some "evil") w_ready =
  (Return (json 200 (JHeroes (filter (alignment_is "evil")
                                     (cachedHeroes (after_listHeroes env_up w_ready))))),
   after_listHeroes env_up w_ready).
Proof.
  apply (listHeroes_accepts_any_alignment env_up "evil" w_ready).
  - cbn [In]. intuition discriminate.
  - discriminate.
Defined.

(** C6: for a search text that is not empty, [/api/superhero] answers
    from the cache as it is, which it leaves unchanged: 200 with the
    records, in cache order, whose name lower-cased contains the text
    lower-cased somewhere, and 404 when there is none.  So "man" finds
    Spider-Man and not Batgirl. *)
Theorem searchByName_matches_substring (text : string) (w : World) :
  text <> EmptyString ->
  get_api_superhero (Some text) w =
    (Return
       (match queryByNameSubstring text (cachedHeroes w) with
        | [] => json 404 (JMessage ("No superhero found with name: "
                                      ++ toLowerCase text)%string)
        | matchingHeroes => json 200 (JHeroes matchingHeroes)
        end),
     w)
  /\ (forall hero,
        In hero (queryByNameSubstring text (cachedHeroes w)) <->
        In hero (cachedHeroes w)
        /\ is_substring (toLowerCase text) (toLowerCase (Hero.name hero)))
  /\ queryByNameSubstring "man" [batgirl; spiderMan] = [spiderMan].
Proof.
  intros Hne. split; [| split].
  - rewrite get_api_superhero_run. destruct text; [congruence | reflexivity].
  - intros hero. unfold queryByNameSubstring.
    now rewrite filter_In, includes_spec.
  - reflexivity.
Qed.

Lemma searchByName_matches_substring_witness :
  get_api_superhero (Some "MAN") w_ready =
    (Return
       (match queryByNameSubstring "MAN" (cachedHeroes w_ready) with
        | [] => json 404 (JMessage ("No superhero found with name: "
                                      ++ toLowerCase "MAN")%string)
        | matchingHeroes => json 200 (JHeroes matchingHeroes)
        end),
     w_ready)
  /\ queryByNameSubstring "MAN" (cachedHeroes w_ready) = [spiderMan].
Proof.
  assert ("MAN" <> EmptyString) as Hne by discriminate.
  split; [| vm_compute; reflexivity].
  exact (proj1 (searchByName_matches_substring "MAN" w_ready Hne)).
Defined.

(** C7: [/api/superhero] with an empty name, or with none, answers 400
    with the same message in every state, leaves the state as it is (the
    cache and the record of upstream calls), and so neither reads the cache
    nor calls upstream. *)
Theorem searchByName_empty_is_rejected (w : World) :
  get_api_superhero (Some EmptyString) w =
    (Return (json 400 (JMessage "Please provide a superhero name.")), w)
  /\ get_api_superhero None w =
    (Return (json 400 (JMessage "Please provide a superhero name.")), w)
  /\ (forall w', fst (get_api_superhero (Some EmptyString) w')
                 = fst (get_api_superhero (Some EmptyString) w)).
Proof. repeat split. Qed.

(** C8, as the code has it: in every state of the cache,
    [/api/superhero/:id] leaves the cache as it is and its answer does not
    depend on the cache.  When the process has an API key it makes exactly
    one upstream call, for this id, and answers 404 exactly when upstream
    replies with something that is not a success envelope.  When the process
    has no API key it answers 500 and makes no upstream call. *)
Theorem getById_bypasses_cache (env : Env) (heroId : string) (w : World) :
  cachedHeroes (snd (get_api_superhero_id env heroId w)) = cachedHeroes w
  /\ (forall heroes,
        fst (get_api_superhero_id env heroId (set_cachedHeroes heroes w))
        = fst (get_api_superhero_id env heroId w))
  /\ (truthy (SUPERHERO_API_KEY env) = true ->
      requests (snd (get_api_superhero_id env heroId w))
      = requests w ++ [heroUrl (interpolate (SUPERHERO_API_KEY env)) heroId]
      /\ (fst (get_api_superhero_id env heroId w) = Return (not_found heroId)
          <-> reports_no_match
                (upstream env (List.length (requests w))
                          (heroUrl (interpolate (SUPERHERO_API_KEY env)) heroId))))
  /\ (truthy (SUPERHERO_API_KEY env) = false ->
      get_api_superhero_id env heroId w
      = (Return (json 500 (JMessage "API key is missing")), w)).
Proof.
  split; [| split; [| split]].
  - rewrite get_api_superhero_id_run.
    now destruct (truthy (SUPERHERO_API_KEY env)).
  - intros heroes. rewrite !get_api_superhero_id_run.
    now destruct (truthy (SUPERHERO_API_KEY env)).
  - intros Hkey. rewrite get_api_superhero_id_run, Hkey.
    split; [reflexivity |]. cbn [fst]. unfold reports_no_match.
    destruct (upstream env (List.length (requests w))
                       (heroUrl (interpolate (SUPERHERO_API_KEY env)) heroId))
      as [message | [d |]].
    + split; [discriminate | intros [data [H _]]; discriminate].
    + destruct (response d) as [r |] eqn:Hr.
      * destruct (String.eqb_spec r "success") as [-> | Hneq].
        -- split; [discriminate |].
           intros [data [Heq Hno]]. exfalso. inversion Heq; subst.
           apply (Hno d eq_refl). assumption.
        -- split; [| reflexivity]. intros _. exists (Some d).
           split; [reflexivity |]. intros d' Hd'. inversion Hd'; subst.
           rewrite Hr. congruence.
      * split; [| reflexivity]. intros _. exists (Some d).
        split; [reflexivity |]. intros d' Hd'. inversion Hd'; subst.
        rewrite Hr. discriminate.
    + split; [| reflexivity]. intros _. exists None.
      split; [reflexivity |]. intros d Hd. discriminate.
  - intros Hkey. now rewrite get_api_superhero_id_run, Hkey.
Qed.

Lemma getById_bypasses_cache_witness :
  truthy (SUPERHERO_API_KEY env_up) = true
  /\ requests (snd (get_api_superhero_id env_up "42" w_ready))
     = requests w_ready ++ ["https://superheroapi.com/api/k/42"]
  /\ cachedHeroes (snd (get_api_superhero_id env_up "42" w_ready))
     = cachedHeroes w_ready
  /\ fst (get_api_superhero_id env_up "42" w_ready) = Return (not_found "42")
  /\ fst (get_api_superhero_id env_up "620" w_ready)
     = Return (json 200 (JData {| response := Some "success"; results := None;
                                  record := Some spiderMan |}))
  /\ truthy (SUPERHERO_API_KEY env_no_key) = false
  /\ get_api_superhero_id env_no_key "42" initial
     = (Return (json 500 (JMessage "API key is missing")), initial).
Proof.
  split; [reflexivity |].
  split; [exact (proj1 (proj1 (proj2 (proj2
            (getById_bypasses_cache env_up "42" w_ready))) eq_refl)) |].
  split; [exact (proj1 (getById_bypasses_cache env_up "42" w_ready)) |].
  split; [vm_compute; reflexivity |].
  split; [vm_compute; reflexivity |].
  split; [reflexivity |].
  exact (proj2 (proj2 (proj2
           (getById_bypasses_cache env_no_key "42" initial))) eq_refl).
Defined.

(** C8, as stated, fails: a process started without an API key (its sweep
    found nothing) answers a lookup by id with 500 and makes no upstream
    call. *)
Lemma getById_without_key_calls_nothing :
  SUPERHERO_API_KEY env_no_key = None
  /\ get_api_superhero_id env_no_key "42"
                          (snd (get_api_heroes env_no_key None initial))
     = (Return (json 500 (JMessage "API key is missing")),
        snd (get_api_heroes env_no_key None initial))
  /\ requests (snd (get_api_superhero_id env_no_key "42"
                      (snd (get_api_heroes env_no_key None initial))))
     = requests (snd (get_api_heroes env_no_key None initial)).
Proof. vm_compute. repeat split. Qed.

(* ===================================================================== *)
(** ** Further properties of the server *)
(* ===================================================================== *)

(** The lower-casing of the model, which works character by character,
    distributes over concatenation. *)
Lemma toLowerCase_app (s t : string) :
  toLowerCase (s ++ t)%string = (toLowerCase s ++ toLowerCase t)%string.
Proof. induction s as [| c s IH]; simpl; [reflexivity | now rewrite IH]. Qed.

Lemma string_app_assoc (s t u : string) :
  ((s ++ t) ++ u)%string = (s ++ t ++ u)%string.
Proof. induction s as [| c s IH]; simpl; [reflexivity | now rewrite IH]. Qed.

Lemma is_substring_toLowerCase (sub s : string) :
  is_substring sub s -> is_substring (toLowerCase sub) (toLowerCase s).
Proof.
  intros [before [after ->]].
  exists (toLowerCase before), (toLowerCase after).
  now rewrite !toLowerCase_app.
Qed.

Lemma is_substring_trans (s t u : string) :
  is_substring s t -> is_substring t u -> is_substring s u.
Proof.
  intros [b1 [a1 ->]] [b2 [a2 ->]].
  exists (b2 ++ b1)%string, (a1 ++ a2)%string.
  now rewrite !string_app_assoc.
Qed.

Lemma grown_from_refl (cached : list Hero.t) : grown_from cached cached.
Proof. exists []. now rewrite app_nil_r. Qed.

Lemma grown_from_trans (c1 c2 c3 : list Hero.t) :
  grown_from c1 c2 -> grown_from c2 c3 -> grown_from c1 c3.
Proof.
  intros [a1 ->] [a2 ->]. exists (a1 ++ a2). now rewrite app_assoc.
Qed.

Lemma merge_grows (heroes cached : list Hero.t) :
  grown_from cached (fold_left push_unique heroes cached).
Proof.
  revert cached. induction heroes as [| hero heroes IH]; intros cached; simpl.
  - apply grown_from_refl.
  - apply grown_from_trans with (push_unique cached hero); [| apply IH].
    destruct (push_unique_cases cached hero) as [[_ ->] | [_ ->]].
    + apply grown_from_refl.
    + now exists [hero].
Qed.

(** What a request does to the cache: nothing, or the sweep. *)
Lemma handle_cache (env : Env) (req : Request) (w : World) :
  cachedHeroes (snd (handle env req w)) =
  match req with
  | ListHeroes _ => cachedHeroes (after_listHeroes env w)
  | _ => cachedHeroes w
  end.
Proof.
  destruct req as [alignment | name | heroId]; cbn [handle].
  - now rewrite get_api_heroes_run.
  - now rewrite get_api_superhero_run.
  - rewrite get_api_superhero_id_run.
    now destruct (truthy (SUPERHERO_API_KEY env)).
Qed.

Lemma handle_grows (env : Env) (req : Request) (w : World) :
  grown_from (cachedHeroes w) (cachedHeroes (snd (handle env req w))).
Proof.
  rewrite handle_cache. destruct req; try apply grown_from_refl.
  unfold after_listHeroes, swept.
  destruct (List.length (cachedHeroes w) =? 0)%nat; [| apply grown_from_refl].
  apply merge_grows.
Qed.

Lemma handle_NoDup (env : Env) (req : Request) (w : World) :
  NoDup (map Hero.id (cachedHeroes w)) ->
  NoDup (map Hero.id (cachedHeroes (snd (handle env req w)))).
Proof.
  intros Hnd. rewrite handle_cache. destruct req; try assumption.
  unfold after_listHeroes, swept.
  destruct (List.length (cachedHeroes w) =? 0)%nat; [| assumption].
  now apply merge_NoDup.
Qed.

(** X1: the sweep never throws and makes exactly 26 upstream calls, the
    searches for the letters a to z in this order, whatever upstream
    answers. *)
Theorem sweep_makes_26_calls_in_order (env : Env) (w : World) :
  fst (initializeHeroCache env w) = Return tt
  /\ requests (snd (initializeHeroCache env w))
     = requests w
         ++ map (allHeroesUrl env)
                ["a"; "b"; "c"; "d"; "e"; "f"; "g"; "h"; "i"; "j"; "k"; "l"; "m";
                 "n"; "o"; "p"; "q"; "r"; "s"; "t"; "u"; "v"; "w"; "x"; "y"; "z"]
  /\ List.length (requests (snd (initializeHeroCache env w)))
     = List.length (requests w) + 26.
Proof.
  rewrite initializeHeroCache_run. unfold swept, sweep_urls.
  cbn [fst snd requests]. repeat split.
  rewrite length_app, length_map. reflexivity.
Qed.

(** X2: the cache is append-only: whatever requests are served, the
    records that were in the cache are still there, unchanged and in the
    same positions, and new records come after them. *)
Theorem cache_is_append_only (env : Env) (reqs : list Request) (w : World) :
  grown_from (cachedHeroes w) (cachedHeroes (serve env reqs w)).
Proof.
  revert w. induction reqs as [| req reqs IH]; intros w.
  - apply grown_from_refl.
  - rewrite serve_cons.
    apply grown_from_trans with (cachedHeroes (snd (handle env req w)));
      [apply handle_grows | apply IH].
Qed.

(** X3: distinct ids are an invariant of the process: if no two cached
    records share an id, no sequence of requests makes two share one.  A
    new process, whose cache is empty, starts in such a state. *)
Theorem ids_stay_distinct (env : Env) (reqs : list Request) (w : World) :
  NoDup (map Hero.id (cachedHeroes w)) ->
  NoDup (map Hero.id (cachedHeroes (serve env reqs w))).
Proof.
  revert w. induction reqs as [| req reqs IH]; intros w Hnd.
  - assumption.
  - rewrite serve_cons. apply IH. now apply handle_NoDup.
Qed.

Lemma ids_stay_distinct_witness :
  NoDup (map Hero.id (cachedHeroes initial))
  /\ NoDup (map Hero.id
              (cachedHeroes
                 (serve env_twice [SearchByName (Some "joker"); ListHeroes None;
                                   GetById "620"; ListHeroes (Some "bad")]
                        initial))).
Proof.
  assert (NoDup (map Hero.id (cachedHeroes initial))) as Hnd by constructor.
  split; [exact Hnd |].
  exact (ids_stay_distinct env_twice _ initial Hnd).
Defined.

Lemma merge_sound (heroes cached : list Hero.t) (hero : Hero.t) :
  In hero (fold_left push_unique heroes cached) ->
  In hero cached \/ In hero heroes.
Proof.
  revert cached. induction heroes as [| h heroes IH]; intros cached Hin; simpl in *.
  - now left.
  - destruct (IH _ Hin) as [Hc | Hh]; [| right; now right].
    destruct (push_unique_cases cached h) as [[_ Heq] | [_ Heq]];
      rewrite Heq in Hc; [now left |].
    apply in_app_or in Hc. destruct Hc as [Hc | [-> | []]];
      [now left | right; now left].
Qed.

Lemma merge_ids (heroes cached : list Hero.t) (i : JsId) :
  In i (map Hero.id (fold_left push_unique heroes cached))
  <-> In i (map Hero.id (cached ++ heroes)).
Proof.
  split; intros Hin.
  - destruct (first_with_id i (cached ++ heroes)) eqn:E.
    + apply find_some in E. destruct E as [Hh Heq].
      apply strict_eq_true in Heq. subst. now apply in_map.
    + rewrite <- merge_first in E. apply first_with_id_None in E. contradiction.
  - destruct (first_with_id i (fold_left push_unique heroes cached)) eqn:E.
    + apply find_some in E. destruct E as [Hh Heq].
      apply strict_eq_true in Heq. subst. now apply in_map.
    + rewrite merge_first in E. apply first_with_id_None in E. contradiction.
Qed.

Lemma merge_known (heroes cached : list Hero.t) :
  (forall hero, In hero heroes -> In (Hero.id hero) (map Hero.id cached)) ->
  fold_left push_unique heroes cached = cached.
Proof.
  induction heroes as [| h heroes IH]; intros Hknown; simpl; [reflexivity |].
  rewrite push_unique_known by (apply Hknown; now left).
  apply IH. intros hero Hin. apply Hknown. now right.
Qed.

(** X4: after [/api/heroes] has swept an empty cache, every cached record
    is one upstream yielded during this sweep, as upstream sent it, and
    every id upstream yielded is the id of a cached record: nothing is made
    up and no id is lost. *)
Theorem swept_cache_is_what_upstream_yielded
        (env : Env) (alignment : option string) (w : World) :
  cachedHeroes w = [] ->
  (forall hero,
      In hero (cachedHeroes (snd (get_api_heroes env alignment w))) ->
      In hero (fetched env (List.length (requests w)) lettersToFetch))
  /\ (forall i,
         In i (map Hero.id (fetched env (List.length (requests w)) lettersToFetch))
         <-> In i (map Hero.id (cachedHeroes (snd (get_api_heroes env alignment w))))).
Proof.
  intros Hempty. rewrite (empty_cache_is_swept env alignment w Hempty).
  unfold swept. cbn [cachedHeroes]. rewrite Hempty. split.
  - intros hero Hin. apply merge_sound in Hin. now destruct Hin as [[] | Hin].
  - intros i. now rewrite merge_ids.
Qed.

Lemma swept_cache_is_what_upstream_yielded_witness :
  cachedHeroes initial = []
  /\ fetched env_twice (List.length (requests initial)) lettersToFetch
     = [spiderMan'; joker; spiderMan; joker]
  /\ cachedHeroes (snd (get_api_heroes env_twice None initial)) = [spiderMan'; joker]
  /\ (In (IdStr "620")
         (map Hero.id (fetched env_twice (List.length (requests initial)) lettersToFetch))
      <-> In (IdStr "620")
             (map Hero.id (cachedHeroes (snd (get_api_heroes env_twice None initial))))).
Proof.
  split; [reflexivity |].
  split; [vm_compute; reflexivity |].
  split; [vm_compute; reflexivity |].
  exact (proj2 (swept_cache_is_what_upstream_yielded env_twice None initial eq_refl)
               (IdStr "620")).
Defined.

(** X5: merging is idempotent: merging a result list a second time changes
    nothing, and so does merging any list whose ids are all in the cache. *)
Theorem merging_twice_changes_nothing (heroes : list Hero.t) (w : World) :
  snd (forEach_push_unique heroes (snd (forEach_push_unique heroes w)))
  = snd (forEach_push_unique heroes w)
  /\ ((forall hero, In hero heroes ->
                    In (Hero.id hero) (map Hero.id (cachedHeroes w))) ->
      cachedHeroes (snd (forEach_push_unique heroes w)) = cachedHeroes w).
Proof.
  unfold forEach_push_unique, bind, read_cachedHeroes, write_cachedHeroes.
  cbn [snd cachedHeroes requests]. split.
  - f_equal. apply merge_known. intros hero Hin.
    apply merge_ids. rewrite map_app, in_app_iff. right. now apply in_map.
  - apply merge_known.
Qed.

Lemma merging_twice_changes_nothing_witness :
  snd (forEach_push_unique [spiderMan; joker; spiderMan']
         (snd (forEach_push_unique [spiderMan; joker; spiderMan'] initial)))
  = snd (forEach_push_unique [spiderMan; joker; spiderMan'] initial)
  /\ cachedHeroes (snd (forEach_push_unique [spiderMan'] w_ready))
     = cachedHeroes w_ready.
Proof.
  split; [exact (proj1 (merging_twice_changes_nothing
                          [spiderMan; joker; spiderMan'] initial)) |].
  apply (proj2 (merging_twice_changes_nothing [spiderMan'] w_ready)).
  intros hero [<- | []]. vm_compute. intuition.
Defined.

(** X6: the sweep does not check the API key.  In a process started
    without one, [/api/heroes] on an empty cache still makes its 26 calls,
    with the text "undefined" in place of the key. *)
Theorem sweep_without_key_calls_undefined
        (env : Env) (alignment : option string) (w : World) :
  SUPERHERO_API_KEY env = None ->
  cachedHeroes w = [] ->
  requests (snd (get_api_heroes env alignment w))
  = requests w
      ++ map (fun letter =>
                ("https://superheroapi.com/api/undefined/search/" ++ letter)%string)
             lettersToFetch.
Proof.
  intros Hkey Hempty. rewrite (empty_cache_is_swept env alignment w Hempty).
  unfold swept, sweep_urls. cbn [requests]. f_equal.
  apply map_ext. intros letter. unfold allHeroesUrl. now rewrite Hkey.
Qed.

Lemma sweep_without_key_calls_undefined_witness :
  requests (snd (get_api_heroes env_no_key None initial))
  = requests initial
      ++ map (fun letter =>
                ("https://superheroapi.com/api/undefined/search/" ++ letter)%string)
             lettersToFetch.
Proof.
  apply (sweep_without_key_calls_undefined env_no_key None initial); reflexivity.
Defined.

Lemma filter_throwing_total {A} (callback : A -> Completion bool) (f : A -> bool)
      (array : list A) :
  (forall x, callback x = Return (f x)) ->
  filter_throwing callback array = Return (filter f array).
Proof.
  intros Hcb. induction array as [| x rest IH]; simpl; [reflexivity |].
  rewrite Hcb, IH. now destruct (f x).
Qed.

(** The listing handler on any parameter is, on a string or an absent
    parameter, [get_api_heroes]. *)
Lemma get_api_heroes_any_string (env : Env) (alignment : option string) (w : World) :
  get_api_heroes_any env (of_string alignment) w = get_api_heroes env alignment w.
Proof.
  unfold get_api_heroes_any, get_api_heroes, try_catch, bind, read_cachedHeroes, ret.
  destruct (List.length (cachedHeroes w) =? 0)%nat.
  - rewrite initializeHeroCache_run.
    destruct alignment as [[| c a] |]; cbn [of_string]; try reflexivity.
    unfold completes.
    rewrite (filter_throwing_total _
               (fun hero =>
                  match Hero.alignment (Hero.biography hero) with
                  | Some (String _ _ as heroAlignment) =>
                      String.eqb (toLowerCase heroAlignment) (toLowerCase (String c a))
                  | _ => false
                  end)); [reflexivity |].
    intros hero. now destruct (Hero.alignment (Hero.biography hero)) as [[| d b] |].
  - destruct alignment as [[| c a] |]; cbn [of_string]; try reflexivity.
    unfold completes.
    rewrite (filter_throwing_total _
               (fun hero =>
                  match Hero.alignment (Hero.biography hero) with
                  | Some (String _ _ as heroAlignment) =>
                      String.eqb (toLowerCase heroAlignment) (toLowerCase (String c a))
                  | _ => false
                  end)); [reflexivity |].
    intros hero. now destruct (Hero.alignment (Hero.biography hero)) as [[| d b] |].
Qed.

Lemma get_api_superhero_any_string (name : option string) (w : World) :
  get_api_superhero_any (of_string name) w = get_api_superhero name w.
Proof. now destruct name. Qed.

(** A filter whose test calls [toLowerCase] on an array or object throws at
    the first record with an alignment, and keeps nothing when there is no
    such record. *)
Lemma filter_throwing_other (heroes : list Hero.t) :
  filter_throwing
    (fun hero =>
       match Hero.alignment (Hero.biography hero) with
       | Some (String _ _) =>
           Throw "TypeError: alignment.toLowerCase is not a function"
       | _ => Return false
       end)
    heroes
  = if some_alignment heroes
    then Throw "TypeError: alignment.toLowerCase is not a function"
    else Return [].
Proof.
  unfold some_alignment.
  induction heroes as [| hero heroes IH]; simpl; [reflexivity |].
  destruct (Hero.alignment (Hero.biography hero)) as [[| c a] |]; simpl;
    try reflexivity; rewrite IH;
    now destruct (existsb _ heroes).
Qed.

(** X7: which requests are answered.  With query parameters that are
    strings or absent, every request is answered and no exception escapes a
    handler: [/api/heroes] answers 200 with a list whatever upstream does,
    [/api/superhero] answers 200, 400 or 404, and [/api/superhero/:id]
    answers 200, 404 or 500.  A name that is an array or an object makes
    [/api/superhero] throw outside its [try]: no answer is sent and the
    state is unchanged.  An alignment that is an array or an object makes
    [/api/heroes] answer 500 when, once it has swept if it had to, some
    cached record has an alignment, and 200 with the empty list
    otherwise. *)
Theorem requests_answered_or_thrown (env : Env) (req : AnyRequest) (w : World) :
  match req with
  | ListHeroesAny QOther =>
      handle_any env req w
      = (Return (if some_alignment (cachedHeroes (after_listHeroes env w))
                 then json 500 (JMessage "Error fetching heroes.")
                 else json 200 (JHeroes [])),
         after_listHeroes env w)
  | ListHeroesAny _ =>
      exists heroes, fst (handle_any env req w) = Return (json 200 (JHeroes heroes))
  | SearchByNameAny QOther =>
      handle_any env req w
      = (Throw "TypeError: req.query.name?.toLowerCase is not a function", w)
  | SearchByNameAny _ =>
      exists res, fst (handle_any env req w) = Return res
                  /\ In (status res) [200; 400; 404]
  | GetByIdAny _ =>
      exists res, fst (handle_any env req w) = Return res
                  /\ In (status res) [200; 404; 500]
  end.
Proof.
  destruct req as [[| alignment |] | [| name |] | heroId]; cbn [handle_any].
  - rewrite (get_api_heroes_any_string env None), get_api_heroes_run. cbn. eauto.
  - rewrite (get_api_heroes_any_string env (Some alignment)), get_api_heroes_run.
    cbn. eauto.
  - unfold get_api_heroes_any, after_listHeroes, try_catch, bind,
      read_cachedHeroes, ret, completes.
    destruct (List.length (cachedHeroes w) =? 0)%nat.
    + rewrite initializeHeroCache_run, filter_throwing_other.
      now destruct (some_alignment (cachedHeroes (swept env w))).
    + rewrite filter_throwing_other.
      now destruct (some_alignment (cachedHeroes w)).
  - cbn [get_api_superhero_any]. rewrite get_api_superhero_run. cbn [fst].
    eexists. split; [reflexivity |]. cbn. auto.
  - cbn [get_api_superhero_any]. rewrite get_api_superhero_run. cbn [fst].
    eexists. split; [reflexivity |].
    destruct name as [| c text]; cbn; auto.
    destruct (queryByNameSubstring _ _); cbn; auto.
  - reflexivity.
  - rewrite get_api_superhero_id_run.
    destruct (truthy (SUPERHERO_API_KEY env)); cbn [fst];
      eexists; (split; [reflexivity |]); [| cbn; auto].
    destruct (upstream env _ _) as [message | [d |]]; cbn; auto.
    destruct (response d) as [r |]; cbn; auto.
    destruct (String.eqb r "success"); cbn; auto.
Qed.

Lemma requests_answered_or_thrown_witness :
  handle_any env_up (ListHeroesAny QOther) initial
  = (Return (json 500 (JMessage "Error fetching heroes.")), w_ready)
  /\ handle_any env_down (ListHeroesAny QOther) initial
     = (Return (json 200 (JHeroes [])), swept env_down initial)
  /\ handle_any env_up (SearchByNameAny QOther) w_ready
     = (Throw "TypeError: req.query.name?.toLowerCase is not a function", w_ready).
Proof.
  split; [| split].
  - rewrite (requests_answered_or_thrown env_up (ListHeroesAny QOther) initial).
    vm_compute. reflexivity.
  - rewrite (requests_answered_or_thrown env_down (ListHeroesAny QOther) initial).
    vm_compute. reflexivity.
  - exact (requests_answered_or_thrown env_up (SearchByNameAny QOther) w_ready).
Defined.

(** X8: the upstream calls of a request: [/api/heroes] makes 26 when the
    cache is empty and none otherwise, [/api/superhero] never makes one,
    and [/api/superhero/:id] makes one when the process has an API key and
    none otherwise.  Calls already on record are kept. *)
Theorem upstream_calls_per_request (env : Env) (req : Request) (w : World) :
  exists calls,
    requests (snd (handle env req w)) = requests w ++ calls
    /\ List.length calls = calls_made env req w.
Proof.
  destruct req as [alignment | name | heroId]; cbn [handle calls_made].
  - rewrite get_api_heroes_run. unfold after_listHeroes, swept. cbn [snd].
    destruct (List.length (cachedHeroes w) =? 0)%nat.
    + exists (sweep_urls env). split; [reflexivity |].
      unfold sweep_urls. now rewrite length_map.
    + exists []. now rewrite app_nil_r.
  - rewrite get_api_superhero_run. exists []. now rewrite app_nil_r.
  - rewrite get_api_superhero_id_run.
    destruct (truthy (SUPERHERO_API_KEY env)); cbn [snd requests].
    + eexists. split; reflexivity.
    + exists []. now rewrite app_nil_r.
Qed.

Lemma heroes_of_search (text : string) (w : World) :
  text <> EmptyString ->
  heroes_of (fst (get_api_superhero (Some text) w))
  = queryByNameSubstring text (cachedHeroes w).
Proof.
  intros Hne. rewrite get_api_superhero_run. cbn [fst].
  destruct text as [| c text]; [congruence |].
  now destruct (queryByNameSubstring (String c text) (cachedHeroes w)).
Qed.

(** X9: a shorter search text finds at least as much.  For search texts
    made of ASCII characters, on which lower-casing works character by
    character: when [shorter] is not empty and occurs in [longer], every
    record a search for [longer] returns is returned by a search for
    [shorter] in the same state. *)
Theorem shorter_search_text_finds_more (shorter longer : string) (w : World) :
  is_ascii longer = true ->
  shorter <> EmptyString ->
  is_substring shorter longer ->
  forall hero,
    In hero (heroes_of (fst (get_api_superhero (Some longer) w))) ->
    In hero (heroes_of (fst (get_api_superhero (Some shorter) w))).
Proof.
  intros _ Hne Hsub hero Hin.
  assert (longer <> EmptyString) as Hlonger.
  { intros ->. destruct Hsub as [[| c b] [a H]]; destruct shorter; try discriminate.
    congruence. }
  rewrite heroes_of_search in * by assumption.
  unfold queryByNameSubstring in *. rewrite filter_In in *.
  destruct Hin as [Hin Hinc]. split; [assumption |].
  apply includes_spec. apply includes_spec in Hinc.
  eapply is_substring_trans; [| exact Hinc].
  now apply is_substring_toLowerCase.
Qed.

Lemma shorter_search_text_finds_more_witness :
  is_ascii "der-M" = true
  /\ In spiderMan (heroes_of (fst (get_api_superhero (Some "der-M") w_ready)))
  /\ In spiderMan (heroes_of (fst (get_api_superhero (Some "r-") w_ready))).
Proof.
  assert (In spiderMan (heroes_of (fst (get_api_superhero (Some "der-M") w_ready))))
    as Hin by (vm_compute; now left).
  split; [reflexivity |]. split; [exact Hin |].
  apply (shorter_search_text_finds_more "r-" "der-M" w_ready).
  - reflexivity.
  - discriminate.
  - exists "de", "M". reflexivity.
  - exact Hin.
Defined.

(** X10: the search text is case-insensitive: two texts that are equal
    once lower-cased get the same answer, body and status, in every
    state. *)
Theorem search_text_is_case_insensitive (text text' : string) (w : World) :
  toLowerCase text = toLowerCase text' ->
  get_api_superhero (Some text) w = get_api_superhero (Some text') w.
Proof.
  intros Hlow. rewrite !get_api_superhero_run.
  destruct text as [| c text], text' as [| c' text']; try discriminate;
    [reflexivity |].
  unfold queryByNameSubstring. now rewrite Hlow.
Qed.

Lemma search_text_is_case_insensitive_witness :
  get_api_superhero (Some "SPIDER") w_ready = get_api_superhero (Some "spiDer") w_ready.
Proof.
  apply (search_text_is_case_insensitive "SPIDER" "spiDer" w_ready). reflexivity.
Defined.

(** X11: a lookup by id passes upstream's answer through: with an API
    key, the answer is 200 exactly when upstream replies with a success
    envelope, and its body is then the reply itself; it is 500 exactly when
    the upstream call is rejected. *)
Theorem getById_passes_upstream_through (env : Env) (heroId : string) (w : World) :
  truthy (SUPERHERO_API_KEY env) = true ->
  (forall d,
      fst (get_api_superhero_id env heroId w) = Return (json 200 (JData d))
      <-> upstream env (List.length (requests w))
                   (heroUrl (interpolate (SUPERHERO_API_KEY env)) heroId)
          = Resolved (Some d)
          /\ response d = Some "success")
  /\ (fst (get_api_superhero_id env heroId w)
      = Return (json 500 (JMessage "Error fetching superhero data."))
      <-> fetch_fails
            (upstream env (List.length (requests w))
                      (heroUrl (interpolate (SUPERHERO_API_KEY env)) heroId))).
Proof.
  intros Hkey. rewrite get_api_superhero_id_run, Hkey. cbn [fst].
  unfold fetch_fails, not_found.
  destruct (upstream env (List.length (requests w))
                     (heroUrl (interpolate (SUPERHERO_API_KEY env)) heroId))
    as [message | [d' |]].
  - split.
    + intros d. split; [discriminate | intros [H _]; discriminate].
    + split; [intros _; now exists message | reflexivity].
  - destruct (response d') as [r |] eqn:Hr.
    + destruct (String.eqb_spec r "success") as [-> | Hneq].
      * split.
        -- intros d. split.
           ++ intros H. inversion H; subst. now split.
           ++ intros [H _]. now inversion H.
        -- split; [discriminate | intros [m H]; discriminate].
      * split.
        -- intros d. split; [discriminate |].
           intros [H Hs]. inversion H; subst. congruence.
        -- split; [discriminate | intros [m H]; discriminate].
    + split.
      * intros d. split; [discriminate |].
        intros [H Hs]. inversion H; subst. congruence.
      * split; [discriminate | intros [m H]; discriminate].
  - split.
    + intros d. split; [discriminate | intros [H _]; discriminate].
    + split; [discriminate | intros [m H]; discriminate].
Qed.

Lemma getById_passes_upstream_through_witness :
  truthy (SUPERHERO_API_KEY env_down) = true
  /\ fst (get_api_superhero_id env_down "620" w_ready)
     = Return (json 500 (JMessage "Error fetching superhero data.")).
Proof.
  split; [reflexivity |].
  apply (proj2 (getById_passes_upstream_through env_down "620" w_ready eq_refl)).
  now exists "connect ECONNREFUSED".
Defined.

(** X12: a letter-fetch that brings nothing (its call is rejected, or the
    reply has no data, no results or an empty list of results) does not
    throw and leaves the cache as it is; its call is on record. *)
Theorem empty_handed_fetch_changes_nothing (env : Env) (letter : string) (w : World) :
  brings_nothing (upstream env (List.length (requests w)) (allHeroesUrl env letter)) ->
  fetchHeroesByLetter env letter w
  = (Return tt,
     {| cachedHeroes := cachedHeroes w;
        requests := requests w ++ [allHeroesUrl env letter] |}).
Proof.
  intros Hnothing. rewrite fetchHeroesByLetter_run.
  destruct Hnothing as [[message ->] | [-> | [d [-> [Hr | Hr]]]]];
    cbn [yielded]; try rewrite Hr; reflexivity.
Qed.

Lemma empty_handed_fetch_changes_nothing_witness :
  fetchHeroesByLetter env_up "q" w_ready
  = (Return tt,
     {| cachedHeroes := cachedHeroes w_ready;
        requests := requests w_ready ++ [allHeroesUrl env_up "q"] |}).
Proof.
  apply (empty_handed_fetch_changes_nothing env_up "q" w_ready).
  right. right. eexists. split; [reflexivity |]. now left.
Defined.

(** X13: a search that follows a listing finds exactly the listed records
    whose name contains the text: for every state in which [/api/heroes]
    (without alignment) is served, a search served next returns the
    sub-list of that listing whose lower-cased names contain the
    lower-cased text. *)
Theorem search_after_listing (env : Env) (text : string) (w : World) :
  text <> EmptyString ->
  heroes_of (fst (get_api_superhero (Some text) (snd (get_api_heroes env None w))))
  = queryByNameSubstring text (heroes_of (fst (get_api_heroes env None w))).
Proof.
  intros Hne. rewrite heroes_of_search by assumption.
  now rewrite get_api_heroes_run.
Qed.

Lemma search_after_listing_witness :
  heroes_of (fst (get_api_superhero (Some "b") (snd (get_api_heroes env_up None initial))))
  = queryByNameSubstring "b" (heroes_of (fst (get_api_heroes env_up None initial)))
  /\ queryByNameSubstring "b" (heroes_of (fst (get_api_heroes env_up None initial)))
     = [batgirl; blank; anonymous].
Proof.
  assert ("b" <> EmptyString) as Hne by discriminate.
  split; [exact (search_after_listing env_up "b" initial Hne) |].
  vm_compute. reflexivity.
Defined.

(** X14: once the cache holds records, the listing for an alignment is the
    listing without alignment filtered: the two requests, in any order and
    with any requests in between, read the same cache. *)
Theorem filtered_listing_is_part_of_full_listing
        (env : Env) (alignment : option string) (reqs : list Request) (w : World) :
  cachedHeroes w <> [] ->
  heroes_of (fst (get_api_heroes env alignment (serve env reqs w)))
  = queryByAlignment alignment (heroes_of (fst (get_api_heroes env None w))).
Proof.
  intros Hne.
  assert (cachedHeroes (serve env reqs w) = cachedHeroes w) as Hsame.
  { revert w Hne. induction reqs as [| req reqs IH]; intros w Hne; [reflexivity |].
    rewrite serve_cons.
    assert (cachedHeroes (snd (handle env req w)) = cachedHeroes w) as Hstep.
    { rewrite (handle_nonempty env req w Hne). reflexivity. }
    rewrite IH; [assumption | now rewrite Hstep]. }
  rewrite !get_api_heroes_run. cbn [fst heroes_of body json].
  unfold after_listHeroes.
  rewrite Hsame, (nonempty_length _ Hne). cbn [queryByAlignment].
  now rewrite Hsame.
Qed.

Lemma filtered_listing_is_part_of_full_listing_witness :
  cachedHeroes w_ready <> []
  /\ heroes_of (fst (get_api_heroes env_up (Some "Bad")
                       (serve env_up [GetById "1"; SearchByName None] w_ready)))
     = queryByAlignment (Some "Bad") (heroes_of (fst (get_api_heroes env_up None w_ready))).
Proof.
  assert (cachedHeroes w_ready <> []) as Hne by (vm_compute; discriminate).
  split; [exact Hne |].
  exact (filtered_listing_is_part_of_full_listing env_up (Some "Bad") _ w_ready Hne).
Defined.

(* ===================================================================== *)
(** ** The Characters page *)
(* ===================================================================== *)

Lemma insert_Permutation (compareFn : Hero.t -> Hero.t -> Z) (x : Hero.t)
      (sorted : list Hero.t) :
  Permutation (x :: sorted) (Characters.insert compareFn x sorted).
Proof.
  induction sorted as [| y rest IH]; simpl.
  - apply Permutation_refl.
  - destruct (compareFn x y <? 0)%Z.
    + apply Permutation_refl.
    + eapply perm_trans; [apply perm_swap |]. now apply perm_skip.
Qed.

Lemma sort_from_Permutation (compareFn : Hero.t -> Hero.t -> Z)
      (array sorted : list Hero.t) :
  Permutation (array ++ sorted)
              (fold_left (fun sorted x => Characters.insert compareFn x sorted)
                         array sorted).
Proof.
  revert sorted. induction array as [| x array IH]; intros sorted; simpl.
  - apply Permutation_refl.
  - eapply perm_trans; [| apply IH].
    eapply perm_trans; [apply Permutation_middle |].
    apply Permutation_app_head. apply insert_Permutation.
Qed.

Lemma sort_Permutation (compareFn : Hero.t -> Hero.t -> Z) (array : list Hero.t) :
  Permutation array (Characters.sort compareFn array).
Proof.
  unfold Characters.sort.
  eapply perm_trans; [| apply sort_from_Permutation]. now rewrite app_nil_r.
Qed.

Lemma filter_Permutation {A} (f : A -> bool) (l l' : list A) :
  Permutation l l' -> Permutation (filter f l) (filter f l').
Proof.
  induction 1 as [| x l l' _ IH | x y l | l l' l'' _ IH1 _ IH2]; simpl.
  - constructor.
  - destruct (f x); [now constructor | assumption].
  - destruct (f x), (f y); try apply Permutation_refl. constructor.
  - now apply perm_trans with (filter f l').
Qed.

Section SortedByName.

Variable localeCompare : string -> string -> Z.
Hypothesis Hconsistent : Characters.consistent localeCompare.

Let compareFn (a b : Hero.t) : Z := localeCompare (Hero.name a) (Hero.name b).

Lemma insert_StronglySorted (x : Hero.t) (sorted : list Hero.t) :
  StronglySorted (Characters.name_le localeCompare) sorted ->
  StronglySorted (Characters.name_le localeCompare)
                 (Characters.insert compareFn x sorted).
Proof.
  destruct Hconsistent as [Hasym Htrans].
  induction 1 as [| y rest Hrest IH Hy]; simpl.
  - constructor; constructor.
  - destruct (Z.ltb_spec (compareFn x y) 0) as [Hlt | Hge].
    + constructor; [now constructor |].
      assert (Characters.name_le localeCompare x y) as Hxy
          by (apply Hasym; exact Hlt).
      constructor; [exact Hxy |].
      eapply Forall_impl; [| exact Hy].
      intros z Hyz. unfold Characters.name_le in *. eapply Htrans; eassumption.
    + constructor; [exact IH |].
      eapply Permutation_Forall; [apply insert_Permutation |].
      constructor; [| exact Hy].
      unfold Characters.name_le. unfold compareFn in Hge. lia.
Qed.

Lemma sort_StronglySorted (array : list Hero.t) :
  StronglySorted (Characters.name_le localeCompare) (Characters.sort compareFn array).
Proof.
  unfold Characters.sort.
  assert (forall sorted,
             StronglySorted (Characters.name_le localeCompare) sorted ->
             StronglySorted (Characters.name_le localeCompare)
               (fold_left (fun sorted x => Characters.insert compareFn x sorted)
                          array sorted)) as Hgen.
  { induction array as [| x array IH]; intros sorted Hs; simpl; [assumption |].
    apply IH. now apply insert_StronglySorted. }
  apply Hgen. constructor.
Qed.

End SortedByName.

Lemma byLength_consistent : Characters.consistent Characters.byLength.
Proof. unfold Characters.consistent, Characters.byLength. split; intros; lia. Qed.

(** X15: what the page does with the reply to its request for the heroes.
    When the reply is a list, the page keeps every record of it exactly
    once (in some order), shows them all and clears the error; the search
    text and the alignment chosen are kept.  When the reply is not a list,
    or the request is rejected, the records loaded and shown stay as they
    were and an error message is set. *)
Theorem fetchAllHeroes_outcomes
        (localeCompare : string -> string -> Z) (st : Characters.State) :
  (forall data,
      let st' := Characters.fetchAllHeroes localeCompare
                   (Characters.ApiResolved (JHeroes data)) st in
      Permutation data (Characters.heroes st')
      /\ Characters.filteredHeroes st' = Characters.heroes st'
      /\ Characters.error st' = EmptyString
      /\ Characters.searchQuery st' = Characters.searchQuery st
      /\ Characters.alignment st' = Characters.alignment st)
  /\ (forall result,
         (forall data, result <> Characters.ApiResolved (JHeroes data)) ->
         let st' := Characters.fetchAllHeroes localeCompare result st in
         Characters.heroes st' = Characters.heroes st
         /\ Characters.filteredHeroes st' = Characters.filteredHeroes st
         /\ Characters.error st' <> EmptyString).
Proof.
  split.
  - intros data. cbn. repeat split. apply sort_Permutation.
  - intros result Hnot.
    destruct result as [message | [data | message | d]];
      try (exfalso; now apply (Hnot data));
      cbn; repeat split; discriminate.
Qed.

Lemma fetchAllHeroes_outcomes_witness :
  Characters.heroes
    (Characters.fetchAllHeroes Characters.byLength
       (Characters.ApiResolved (JMessage "Error fetching heroes."))
       Characters.mounted)
  = Characters.heroes Characters.mounted
  /\ Characters.heroes
       (Characters.fetchAllHeroes Characters.byLength
          (Characters.ApiResolved (JHeroes [spiderMan; joker; batgirl]))
          Characters.mounted)
     = [joker; batgirl; spiderMan].
Proof.
  split; [| reflexivity].
  apply (proj2 (fetchAllHeroes_outcomes Characters.byLength Characters.mounted)
               (Characters.ApiResolved (JMessage "Error fetching heroes."))).
  intros data. discriminate.
Defined.

(** X16: the page sorts the heroes by name: for a consistent comparison of
    names, in the list the page keeps no record comes before one whose name
    is smaller. *)
Theorem fetchAllHeroes_sorts_by_name
        (localeCompare : string -> string -> Z) (data : list Hero.t)
        (st : Characters.State) :
  Characters.consistent localeCompare ->
  StronglySorted (Characters.name_le localeCompare)
    (Characters.heroes
       (Characters.fetchAllHeroes localeCompare
          (Characters.ApiResolved (JHeroes data)) st)).
Proof.
  intros Hc. cbn. now apply sort_StronglySorted.
Qed.

Lemma fetchAllHeroes_sorts_by_name_witness :
  StronglySorted (Characters.name_le Characters.byLength)
    (Characters.heroes
       (Characters.fetchAllHeroes Characters.byLength
          (Characters.ApiResolved (JHeroes [spiderMan; joker; batgirl]))
          Characters.mounted)).
Proof.
  exact (fetchAllHeroes_sorts_by_name Characters.byLength
           [spiderMan; joker; batgirl] Characters.mounted byLength_consistent).
Defined.

Lemma filterHeroes_filtered (searchQuery alignment : string) (st : Characters.State) :
  Characters.filteredHeroes (Characters.filterHeroes searchQuery alignment st)
  = queryByAlignment (Some alignment)
      (match searchQuery with
       | EmptyString => Characters.heroes st
       | _ => queryByNameSubstring searchQuery (Characters.heroes st)
       end).
Proof.
  unfold Characters.filterHeroes.
  match goal with
  | |- context [if ?b then _ else _] => destruct b
  end; cbn [Characters.filteredHeroes Characters.setError Characters.setFilteredHeroes];
    destruct alignment as [| c a]; destruct searchQuery as [| d q];
      cbn [queryByAlignment]; try reflexivity;
      apply filter_ext; intros hero; apply alignment_test; discriminate.
Qed.

Lemma axios_get_api_heroes_run (env : Env) (w : World) :
  Characters.axios_get_api_heroes env w
  = (Characters.ApiResolved (JHeroes (cachedHeroes (after_listHeroes env w))),
     after_listHeroes env w).
Proof.
  unfold Characters.axios_get_api_heroes. now rewrite get_api_heroes_run.
Qed.

(** X17: what the page shows after filtering: the records loaded are left
    as they are, and a record is shown exactly when it is loaded, its name
    lower-cased contains the search text lower-cased (when there is one),
    and its alignment is present, not empty and equal to the chosen one,
    both lower-cased (when one is chosen). *)
Theorem filterHeroes_shows_matching_heroes
        (searchQuery alignment : string) (st : Characters.State) (hero : Hero.t) :
  Characters.heroes (Characters.filterHeroes searchQuery alignment st)
  = Characters.heroes st
  /\ (In hero (Characters.filteredHeroes
                 (Characters.filterHeroes searchQuery alignment st))
      <-> In hero (Characters.heroes st)
          /\ (searchQuery = EmptyString
              \/ is_substring (toLowerCase searchQuery)
                              (toLowerCase (Hero.name hero)))
          /\ (alignment = EmptyString
              \/ exists a, Hero.alignment (Hero.biography hero) = Some a
                           /\ a <> EmptyString
                           /\ toLowerCase a = toLowerCase alignment)).
Proof.
  split.
  - unfold Characters.filterHeroes.
    match goal with
    | |- context [if ?b then _ else _] => destruct b
    end; reflexivity.
  - rewrite filterHeroes_filtered.
    assert (In hero (match searchQuery with
                     | EmptyString => Characters.heroes st
                     | _ => queryByNameSubstring searchQuery (Characters.heroes st)
                     end)
            <-> In hero (Characters.heroes st)
                /\ (searchQuery = EmptyString
                    \/ is_substring (toLowerCase searchQuery)
                                    (toLowerCase (Hero.name hero)))) as Hname.
    { destruct searchQuery as [| d q].
      - split; [intros H; split; [assumption | now left] | now intros [H _]].
      - unfold queryByNameSubstring. rewrite filter_In, includes_spec.
        split; intros [H1 H2]; (split; [assumption |]).
        + now right.
        + destruct H2 as [H2 | H2]; [discriminate | assumption]. }
    destruct alignment as [| c a].
    + cbn [queryByAlignment]. rewrite Hname.
      split; [intros [H1 H2]; repeat split; auto | intros [H1 [H2 _]]; now split].
    + rewrite queryByAlignment_In by discriminate. rewrite Hname.
      split.
      * intros [[H1 H2] H3]. repeat split; auto.
      * intros [H1 [H2 [H3 | H3]]]; [discriminate |]. now repeat split.
Qed.

(** X18: the page reports "no heroes match" exactly when it shows no
    record.  So a page with no record loaded reports it for every search
    text and alignment, also when neither is set. *)
Theorem filterHeroes_reports_when_nothing_is_shown
        (searchQuery alignment : string) (st : Characters.State) :
  (Characters.filteredHeroes (Characters.filterHeroes searchQuery alignment st) = []
   <-> Characters.error (Characters.filterHeroes searchQuery alignment st)
       = "No heroes match your search criteria and alignment filter.")
  /\ (Characters.filteredHeroes (Characters.filterHeroes searchQuery alignment st) <> []
      <-> Characters.error (Characters.filterHeroes searchQuery alignment st)
          = EmptyString)
  /\ (Characters.heroes st = [] ->
      Characters.error (Characters.filterHeroes searchQuery alignment st)
      = "No heroes match your search criteria and alignment filter.").
Proof.
  assert (Characters.heroes st = [] ->
          Characters.filteredHeroes (Characters.filterHeroes searchQuery alignment st)
          = []) as Hnone.
  { intros He. rewrite filterHeroes_filtered, He.
    destruct alignment, searchQuery; reflexivity. }
  assert (Characters.filteredHeroes (Characters.filterHeroes searchQuery alignment st) = []
          <-> Characters.error (Characters.filterHeroes searchQuery alignment st)
              = "No heroes match your search criteria and alignment filter.") as Hiff.
  { unfold Characters.filterHeroes.
    match goal with
    | |- context [if (List.length ?l =? 0)%nat then _ else _] => destruct l
    end; cbn; split; intros H; try reflexivity; discriminate. }
  split; [exact Hiff |]. split.
  - unfold Characters.filterHeroes.
    match goal with
    | |- context [if (List.length ?l =? 0)%nat then _ else _] => destruct l
    end; cbn; split; intros H; try reflexivity; try discriminate.
    now contradiction H.
  - intros He. apply Hiff. now apply Hnone.
Qed.

Lemma filterHeroes_reports_when_nothing_is_shown_witness :
  Characters.heroes Characters.mounted = []
  /\ Characters.error
       (Characters.filterHeroes EmptyString EmptyString Characters.mounted)
     = "No heroes match your search criteria and alignment filter.".
Proof.
  split; [reflexivity |].
  exact (proj2 (proj2 (filterHeroes_reports_when_nothing_is_shown
                         EmptyString EmptyString Characters.mounted)) eq_refl).
Defined.

(** X19: [fetchAllHeroes] on what this backend answers: whatever upstream
    does, [/api/heroes] (without alignment) resolves with a list, so
    [fetchAllHeroes], called with that answer, takes neither of its error
    branches: it clears the error and keeps exactly the records of the
    server's cache, each once. *)
Theorem fetchAllHeroes_accepts_the_listing
        (localeCompare : string -> string -> Z) (env : Env) (w : World)
        (st : Characters.State) :
  Characters.error
    (Characters.fetchAllHeroes localeCompare
       (fst (Characters.axios_get_api_heroes env w)) st) = EmptyString
  /\ Permutation
       (cachedHeroes (snd (Characters.axios_get_api_heroes env w)))
       (Characters.heroes
          (Characters.fetchAllHeroes localeCompare
             (fst (Characters.axios_get_api_heroes env w)) st)).
Proof.
  rewrite axios_get_api_heroes_run. cbn. split; [reflexivity |].
  apply sort_Permutation.
Qed.

(** X20: [filterHeroes] and the routes of the server compute the same
    filters.  On the state [fetchAllHeroes] gives when called with the
    server's listing, the records [filterHeroes] keeps for a search text are
    those the server's search returns for that text, and the records it
    keeps for an alignment are those the server lists for that alignment
    (when the server's cache holds records), up to their order. *)
Theorem filterHeroes_agrees_with_the_routes
        (localeCompare : string -> string -> Z) (env : Env) (w : World)
        (st : Characters.State) (searchQuery alignment : string) :
  (searchQuery <> EmptyString ->
   Permutation
     (Characters.filteredHeroes
        (Characters.filterHeroes searchQuery EmptyString
           (Characters.fetchAllHeroes localeCompare
              (fst (Characters.axios_get_api_heroes env w)) st)))
     (heroes_of (fst (get_api_superhero (Some searchQuery)
                        (snd (Characters.axios_get_api_heroes env w))))))
  /\ (cachedHeroes (snd (Characters.axios_get_api_heroes env w)) <> [] ->
      Permutation
        (Characters.filteredHeroes
           (Characters.filterHeroes EmptyString alignment
              (Characters.fetchAllHeroes localeCompare
                 (fst (Characters.axios_get_api_heroes env w)) st)))
        (heroes_of (fst (get_api_heroes env (Some alignment)
                           (snd (Characters.axios_get_api_heroes env w)))))).
Proof.
  rewrite axios_get_api_heroes_run. cbn [fst snd]. split.
  - intros Hne. rewrite heroes_of_search by assumption.
    rewrite filterHeroes_filtered. cbn [queryByAlignment].
    destruct searchQuery as [| d q]; [congruence |].
    unfold queryByNameSubstring. apply filter_Permutation.
    cbn. apply Permutation_sym, sort_Permutation.
  - intros Hne. rewrite get_api_heroes_run. cbn [fst heroes_of body json].
    rewrite filterHeroes_filtered.
    unfold after_listHeroes at 2.
    rewrite (nonempty_length _ Hne).
    destruct alignment as [| c a]; cbn [queryByAlignment];
      [| apply filter_Permutation];
      cbn; apply Permutation_sym, sort_Permutation.
Qed.

Lemma filterHeroes_agrees_with_the_routes_witness :
  Characters.filteredHeroes
    (Characters.filterHeroes "MAN" EmptyString
       (Characters.fetchAllHeroes Characters.byLength
          (fst (Characters.axios_get_api_heroes env_up initial)) Characters.mounted))
  = [spiderMan]
  /\ Permutation
       (Characters.filteredHeroes
          (Characters.filterHeroes "MAN" EmptyString
             (Characters.fetchAllHeroes Characters.byLength
                (fst (Characters.axios_get_api_heroes env_up initial))
                Characters.mounted)))
       (heroes_of (fst (get_api_superhero (Some "MAN")
                          (snd (Characters.axios_get_api_heroes env_up initial)))))
  /\ Permutation
       (Characters.filteredHeroes
          (Characters.filterHeroes EmptyString "Good"
             (Characters.fetchAllHeroes Characters.byLength
                (fst (Characters.axios_get_api_heroes env_up initial))
                Characters.mounted)))
       (heroes_of (fst (get_api_heroes env_up (Some "Good")
                          (snd (Characters.axios_get_api_heroes env_up initial))))).
Proof.
  assert ("MAN" <> EmptyString) as Hq by discriminate.
  assert (cachedHeroes (snd (Characters.axios_get_api_heroes env_up initial)) <> [])
    as Hne by (vm_compute; discriminate).
  split; [vm_compute; reflexivity |].
  split.
  - exact (proj1 (filterHeroes_agrees_with_the_routes Characters.byLength env_up initial
                    Characters.mounted "MAN" "Good") Hq).
  - exact (proj2 (filterHeroes_agrees_with_the_routes Characters.byLength env_up initial
                    Characters.mounted "MAN" "Good") Hne).
Defined.
